(** * penman.interface: reading and writing PENMAN graphs

    A shallow embedding of [penman/interface.py]: the six public
    functions [decode], [encode], [load], [loads], [dump], [dumps] and the
    helper [_dump], over an explicit model of the Python run-time state
    they touch (codec objects, the file system, file objects).

    The grammar engine ([penman.codec.PENMANCodec]) is imported by the
    module and is not part of it; it appears here as the interface
    [Engine], and everything is stated for an arbitrary engine. *)

From Stdlib Require Import ZArith Ascii String.
From stdpp Require Import base option list gmap strings.

Set Default Proof Using "Type".

(** ** Python values and exceptions *)

(** The line break ['\n']. *)
Definition nl : string := String (ascii_of_nat 10) EmptyString.

(** [indent: Union[int, bool]], passed through to the codec unchanged. *)
Inductive indent_t :=
| IndentInt (n : Z)
| IndentBool (b : bool).

(** The default [indent=-1]. *)
Definition default_indent : indent_t := IndentInt (-1).

(** Addresses of file objects and of codec objects in the store. *)
Abbreviation handle := nat (only parsing).
Abbreviation codec_ref := nat (only parsing).

(** The values a caller can pass as [source] or [file]: a [str], a
    [pathlib.Path], some other object of the store (a file-like object or
    not), or a value with neither a [read] nor a [write] attribute. *)
Inductive pyobj :=
| PyStr (s : string)
| PyPath (p : string)
| PyInt (n : Z)
| PyNone
| PyObj (h : handle).

Inductive os_error := FileNotFoundError | PermissionError.

(** The mode argument of [open]: [open(source)] reads, [open(file, 'w')]
    truncates and writes. *)
Inductive open_mode := ModeR | ModeW.

(** ** The codec engine *)

(** What [penman.codec] provides, as functions of the model a codec object
    was built with and of the arguments of the call.  [engine_iterdecode]
    lists the outcome of each element of the lazy sequence in the order the
    elements are requested; an element that is malformed is an [inl]. *)
Class Engine := {
  Graph : Type;
  Model : Type;
  CodecExn : Type;
  codec_exn_name : CodecExn → string;
  engine_decode : option Model → string → bool → CodecExn + Graph;
  engine_iterdecode : option Model → string → bool → list (CodecExn + Graph);
  engine_encode :
    option Model → Graph → option string → bool → indent_t → bool →
    CodecExn + string;
  graph_top : Graph → string;
  graph_edges : Graph → list (string * string * string)
}.

(** An engine small enough to run: a graph is a piece of text, text
    decodes to itself unless it is ["x"], every character of a source is one
    element of the decoded sequence, and the empty graph cannot be
    encoded. *)
Definition toy_bad (s : string) : bool := bool_decide (s = "x").

Definition toy_engine : Engine := {|
  Graph := string;
  Model := bool;
  CodecExn := string;
  codec_exn_name := λ _, "DecodeError";
  engine_decode := λ _ s _, if toy_bad s then inl s else inr s;
  engine_iterdecode := λ _ s _,
    (λ c, let g := String c EmptyString in
          if toy_bad g then inl g else inr g) <$> list_ascii_of_string s;
  engine_encode := λ _ g _ _ _ _,
    if bool_decide (g = "") then inl "empty" else inr g;
  graph_top := λ g, g;
  graph_edges := λ _, []
|}.

Section Interface.
Context `{Engine}.

(** Exceptions, by class. *)
Inductive exn :=
| AssertionError
| StopIteration
| TypeError
| AttributeError
| ValueError
| SystemError
| OSError (k : os_error)
| CodecError (e : CodecExn).

Definition exn_name (e : exn) : string :=
  match e with
  | AssertionError => "AssertionError"
  | StopIteration => "StopIteration"
  | TypeError => "TypeError"
  | AttributeError => "AttributeError"
  | ValueError => "ValueError"
  | SystemError => "SystemError"
  | OSError FileNotFoundError => "FileNotFoundError"
  | OSError PermissionError => "PermissionError"
  | CodecError e => codec_exn_name e
  end.

(** ** The store *)

(** An object of the store.  [s_read] and [s_write] say whether it has a
    [read] and a [write] attribute; [s_data] is the text iterating over it
    yields; [s_written] is the text written to it so far; [s_flush] is the
    file the written text goes to when the object is closed. *)
Record stream := Stream {
  s_read : bool;
  s_write : bool;
  s_data : string;
  s_written : string;
  s_closed : bool;
  s_flush : option string
}.

(** Codec objects (each holding the model it was built with), the files by
    name, the names [open] refuses, and the file objects. *)
Record world := World {
  codecs : list (option Model);
  files : gmap string string;
  denied : gset string;
  streams : list stream
}.

Definition with_codecs (f : list (option Model) → list (option Model))
    (w : world) : world :=
  World (f (codecs w)) (files w) (denied w) (streams w).

Definition with_files (f : gmap string string → gmap string string)
    (w : world) : world :=
  World (codecs w) (f (files w)) (denied w) (streams w).

Definition with_streams (f : list stream → list stream) (w : world) : world :=
  World (codecs w) (files w) (denied w) (f (streams w)).

Definition put_text (s : string) (st : stream) : stream :=
  Stream (s_read st) (s_write st) (s_data st) (s_written st +:+ s)
         (s_closed st) (s_flush st).

Definition mark_closed (st : stream) : stream :=
  Stream (s_read st) (s_write st) (s_data st) (s_written st) true (s_flush st).

(** ** Computations: state and exceptions *)

Inductive result (A : Type) :=
| Ok (a : A)
| Raise (e : exn).
Arguments Ok {A} a.
Arguments Raise {A} e.

(** A computation runs in a store and leaves a store, also when it
    raises: what was written before an exception stays written. *)
Definition M (A : Type) : Type := world → result A * world.

#[global] Instance M_ret : MRet M := λ A a w, (Ok a, w).

#[global] Instance M_bind : MBind M := λ A B f m w,
  match m w with
  | (Ok a, w') => f a w'
  | (Raise e, w') => (Raise e, w')
  end.

Definition raise {A} (e : exn) : M A := λ w, (Raise e, w).

(** [try: m except StopIteration: handler]. *)
Definition try_except_StopIteration {A} (m handler : M A) : M A := λ w,
  match m w with
  | (Raise StopIteration, w') => handler w'
  | r => r
  end.

(** [try: m finally: fin]. *)
Definition finally {A} (m : M A) (fin : M unit) : M A := λ w,
  match m w with
  | (r, w') =>
      match fin w' with
      | (Ok _, w'') => (r, w'')
      | (Raise e, w'') => (Raise e, w'')
      end
  end.

(** [assert b], with assertions enabled (the interpreter's default). *)
Definition assert_ (b : M bool) : M unit :=
  ok ← b; if ok : bool then mret () else raise AssertionError.

(** The value and the store a computation ends with. *)
Definition outcome {A} (m : M A) (w : world) : result A := fst (m w).
Definition after {A} (m : M A) (w : world) : world := snd (m w).

(** ** Built-ins *)

(** [isinstance(v, (str, Path))], with the file name when it holds. *)
Definition as_filename (v : pyobj) : option string :=
  match v with
  | PyStr s => Some s
  | PyPath p => Some p
  | _ => None
  end.

Definition has_attribute (attr : stream → bool) (v : pyobj) (w : world) : bool :=
  match v with
  | PyObj h =>
      match streams w !! h with
      | Some st => attr st
      | None => false
      end
  | _ => false
  end.

(** [hasattr(v, 'read')] and [hasattr(v, 'write')]. *)
Definition hasattr_read (v : pyobj) : M bool := λ w,
  (Ok (has_attribute s_read v w), w).
Definition hasattr_write (v : pyobj) : M bool := λ w,
  (Ok (has_attribute s_write v w), w).

Definition fresh_stream (data : string) (flush : option string) : stream :=
  Stream true true data "" false flush.

(** [open(file)] and [open(file, 'w')].  Opening for writing creates the
    file or empties it at once. *)
Definition open_ (file : string) (mode : open_mode) : M handle := λ w,
  if decide (file ∈ denied w) then (Raise (OSError PermissionError), w)
  else
    match mode with
    | ModeR =>
        match files w !! file with
        | None => (Raise (OSError FileNotFoundError), w)
        | Some text =>
            (Ok (length (streams w)),
             with_streams (λ l, l ++ [fresh_stream text None]) w)
        end
    | ModeW =>
        (Ok (length (streams w)),
         with_streams (λ l, l ++ [fresh_stream "" (Some file)])
           (with_files (insert file "") w))
    end.

(** [fh.close()]: the text written goes to the file; closing a closed file
    does nothing. *)
Definition close (fh : handle) : M unit := λ w,
  match streams w !! fh with
  | None => (Ok (), w)
  | Some st =>
      if s_closed st then (Ok (), w)
      else
        (Ok (),
         with_streams (alter mark_closed fh)
           (match s_flush st with
            | Some file => with_files (insert file (s_written st)) w
            | None => w
            end))
  end.

(** [with opn as fh: body fh]. *)
Definition with_open {A} (opn : M handle) (body : pyobj → M A) : M A :=
  fh ← opn; finally (body (PyObj fh)) (close fh).

(** [fh.write(s)]. *)
Definition write (fh : pyobj) (s : string) : M unit := λ w,
  match fh with
  | PyObj h =>
      match streams w !! h with
      | Some st =>
          if s_write st then
            if s_closed st then (Raise ValueError, w)
            else (Ok (), with_streams (alter (put_text s) h) w)
          else (Raise AttributeError, w)
      | None => (Raise AttributeError, w)
      end
  | _ => (Raise AttributeError, w)
  end.

(** [print(s, file=fh)] writes [s] and then the line break;
    [print(file=fh)] writes the line break alone. *)
Definition print (s : string) (fh : pyobj) : M unit :=
  write fh s;; write fh nl.
Definition print_blank (fh : pyobj) : M unit := write fh nl.

(** A generator: the computations that produce its elements, run one at a
    time as the elements are requested. *)
Definition generator (A : Type) : Type := list (M A).

(** [next(gen)]: the next element and the generator advanced past it. *)
Definition next {A} (gen : generator A) : M (A * generator A) :=
  match gen with
  | [] => raise StopIteration
  | m :: gen' => a ← m; mret (a, gen')
  end.

(** [list(gen)]. *)
Fixpoint list_ {A} (gen : generator A) : M (list A) :=
  match gen with
  | [] => mret []
  | m :: gen' => a ← m; l ← list_ gen'; mret (a :: l)
  end.

(** [for a in gen: body a]. *)
Fixpoint for_ {A} (gen : generator A) (body : A → M unit) : M unit :=
  match gen with
  | [] => mret ()
  | m :: gen' => a ← m; body a;; for_ gen' body
  end.

(** [sep.join(strings)]. *)
Definition join (sep : string) (strings : list string) : string :=
  String.concat sep strings.

(** ** Codec objects *)

(** [PENMANCodec(model=model)]: a new codec object holding [model]. *)
Definition PENMANCodec (model : option Model) : M codec_ref := λ w,
  (Ok (length (codecs w)), with_codecs (λ l, l ++ [model]) w).

(** The model a codec object holds.  Every reference this module uses
    comes from [PENMANCodec] just before, so the second case is never
    reached. *)
Definition codec_model (codec : codec_ref) : M (option Model) := λ w,
  match codecs w !! codec with
  | Some model => (Ok model, w)
  | None => (Raise SystemError, w)
  end.

Definition from_engine {A} (r : CodecExn + A) : M A :=
  match r with
  | inl e => raise (CodecError e)
  | inr a => mret a
  end.

(** The text [codec.iterdecode] reads from its first argument: a [str]
    itself, an open file object's data.  How far a file object has been
    read is not part of the model. *)
Definition read_lines (lines : pyobj) : M string := λ w,
  match lines with
  | PyStr s => (Ok s, w)
  | PyObj h =>
      match streams w !! h with
      | Some st =>
          if s_closed st then (Raise ValueError, w) else (Ok (s_data st), w)
      | None => (Raise TypeError, w)
      end
  | _ => (Raise TypeError, w)
  end.

(** [codec.decode(s, triples=triples)]. *)
Definition codec_decode (codec : codec_ref) (s : string) (triples : bool)
    : M Graph :=
  model ← codec_model codec; from_engine (engine_decode model s triples).

(** [codec.iterdecode(lines, triples=triples)]: the generator of the
    decoded graphs.  Its elements are decoded one by one as they are
    requested; the text is taken from [lines] here, when the generator is
    made, which in this module is immediately before [list] consumes it. *)
Definition codec_iterdecode (codec : codec_ref) (lines : pyobj)
    (triples : bool) : M (generator Graph) :=
  model ← codec_model codec;
  text ← read_lines lines;
  mret (from_engine <$> engine_iterdecode model text triples).

(** [codec.encode(g, top=top, triples=triples, indent=indent,
    compact=compact)]. *)
Definition codec_encode (codec : codec_ref) (g : Graph) (top : option string)
    (triples : bool) (indent : indent_t) (compact : bool) : M string :=
  model ← codec_model codec;
  from_engine (engine_encode model g top triples indent compact).

(** ** The module's functions *)

Definition decode (s : string) (model : option Model) (triples : bool)
    : M Graph :=
  codec ← PENMANCodec model;
  codec_decode codec s triples.

Definition encode (g : Graph) (top : option string) (model : option Model)
    (triples : bool) (indent : indent_t) (compact : bool) : M string :=
  codec ← PENMANCodec model;
  codec_encode codec g top triples indent compact.

Definition load (source : pyobj) (model : option Model) (triples : bool)
    : M (list Graph) :=
  codec ← PENMANCodec model;
  match as_filename source with
  | Some name =>
      with_open (open_ name ModeR) (λ fh,
        gen ← codec_iterdecode codec fh triples; list_ gen)
  | None =>
      assert_ (hasattr_read source);;
      gen ← codec_iterdecode codec source triples; list_ gen
  end.

Definition loads (string : string) (model : option Model) (triples : bool)
    : M (list Graph) :=
  codec ← PENMANCodec model;
  gen ← codec_iterdecode codec (PyStr string) triples; list_ gen.

Definition _dump (fh : pyobj) (gs : list Graph) (codec : codec_ref)
    (triples : bool) (indent : indent_t) (compact : bool) : M unit :=
  let ss : generator string :=
    (λ g, codec_encode codec g None triples indent compact) <$> gs in
  rest ←
    try_except_StopIteration
      (p ← next ss; print p.1 fh;; mret (Some p.2))
      (mret None);
  match rest with
  | None => mret ()
  | Some ss => for_ ss (λ s, print_blank fh;; print s fh)
  end.

Definition dump (graphs : list Graph) (file : pyobj) (model : option Model)
    (triples : bool) (indent : indent_t) (compact : bool) : M unit :=
  codec ← PENMANCodec model;
  match as_filename file with
  | Some name =>
      with_open (open_ name ModeW) (λ fh,
        _dump fh graphs codec triples indent compact)
  | None =>
      assert_ (hasattr_write file);;
      _dump file graphs codec triples indent compact
  end.

Definition dumps (graphs : list Graph) (model : option Model) (triples : bool)
    (indent : indent_t) (compact : bool) : M string :=
  codec ← PENMANCodec model;
  strings ←
    list_ ((λ g, codec_encode codec g None triples indent compact) <$> graphs);
  mret (join (nl +:+ nl) strings).

(** ** What the specification speaks about *)

(** The elements of a sequence of outcomes before its first failure, and
    that failure. *)
Fixpoint successes {E A} (l : list (E + A)) : list A :=
  match l with
  | inr a :: l' => a :: successes l'
  | _ => []
  end.

Fixpoint failure {E A} (l : list (E + A)) : option E :=
  match l with
  | [] => None
  | inl e :: _ => Some e
  | inr _ :: l' => failure l'
  end.

(** What a computation over such a sequence ends with: the exception of
    the first failure, or the value [a]. *)
Definition ends_with {A} (fail : option CodecExn) (a : A) : result A :=
  match fail with
  | Some e => Raise (CodecError e)
  | None => Ok a
  end.

(** The outcomes of encoding each graph of [gs] with the engine. *)
Definition encodings (model : option Model) (triples : bool)
    (indent : indent_t) (compact : bool) (gs : list Graph)
    : list (CodecExn + string) :=
  (λ g, engine_encode model g None triples indent compact) <$> gs.

(** The store after [text] went to the file object [h]. *)
Definition emit (h : handle) (text : string) (w : world) : world :=
  with_streams (alter (put_text text) h) w.

(** A file object that is there, has a [write] attribute and is open. *)
Definition writable (h : handle) (w : world) : Prop :=
  ∃ st, streams w !! h = Some st ∧ s_write st = true ∧ s_closed st = false.

(** A file object that is there, has a [read] attribute, is open and
    holds [text]. *)
Definition readable (h : handle) (text : string) (w : world) : Prop :=
  ∃ st, streams w !! h = Some st ∧ s_read st = true ∧ s_closed st = false
        ∧ s_data st = text.

(** The text written so far to the file object [h]. *)
Definition written (h : handle) (w : world) : string :=
  from_option s_written "" (streams w !! h).

(** The [write] calls [_dump] makes for the encoded graphs [ss], in order,
    and their text. *)
Definition dump_writes (ss : list string) : list string :=
  match ss with
  | [] => []
  | s :: rest => s :: nl :: (rest ≫= λ s', [nl; s'; nl])
  end.

Definition dump_text (ss : list string) : string :=
  String.concat "" (dump_writes ss).

(** The result of [dumps] as the specification words it:
    [encode(g1) + "\n\n" + ... + "\n\n" + encode(gn)], the empty string for
    no graph. *)
Definition dumps_spec (ss : list string) : string :=
  match ss with
  | [] => ""
  | s :: rest => foldl (λ acc s', (acc +:+ (nl +:+ nl)) +:+ s') s rest
  end.

(** The output of [dump] as the specification words it: the first graph and
    a line break, then for every further graph a blank line, the graph and
    a line break; nothing for no graph. *)
Fixpoint dump_spec_rest (ss : list string) : string :=
  match ss with
  | [] => ""
  | s :: rest => nl +:+ (s +:+ nl) +:+ dump_spec_rest rest
  end.

Definition dump_spec (ss : list string) : string :=
  match ss with
  | [] => ""
  | s :: rest => (s +:+ nl) +:+ dump_spec_rest rest
  end.

(** Two stores with the same file objects, each as open or closed in one
    as in the other. *)
Definition same_streams (w w' : world) : Prop :=
  length (streams w') = length (streams w) ∧
  ∀ h : handle, s_closed <$> streams w' !! h = s_closed <$> streams w !! h.

(** A computation that opens and closes no file object. *)
Definition keeps_streams {A} (m : M A) : Prop :=
  ∀ w, same_streams w (after m w).

(** Between two stores: the file objects of the first are as open or
    closed in the second, and every file object the second has in addition
    is closed. *)
Definition streams_released (w w' : world) : Prop :=
  (∀ h st, streams w !! h = Some st →
     ∃ st', streams w' !! h = Some st' ∧ s_closed st' = s_closed st) ∧
  (∀ h st', length (streams w) ≤ h → streams w' !! h = Some st' →
     s_closed st' = true).

(** Modelled from the spec: what it means for two graphs to be equivalent
    (the same top and the same edge set).  [penman.graph] is not among the
    sources. *)
Definition graph_equiv (g g' : Graph) : Prop :=
  graph_top g = graph_top g' ∧ graph_edges g ≡ₚ graph_edges g'.

(** Modelled from the spec: the grammar is lossless for a configuration at
    a graph when the engine decodes what it encoded for that graph into an
    equivalent graph.  [penman.codec] is not among the sources. *)
Definition lossless (model : option Model) (triples : bool)
    (indent : indent_t) (compact : bool) (g : Graph) : Prop :=
  ∀ s, engine_encode model g None triples indent compact = inr s →
       ∃ g', engine_decode model s triples = inr g' ∧ graph_equiv g g'.

(** [source] is something [load] can read, and reading it gives [text]:
    the name of a file that [open] accepts and that holds [text], or an
    open file object with a [read] attribute whose data is [text]. *)
Definition holds_text (source : pyobj) (text : string) (w : world) : Prop :=
  match as_filename source with
  | Some name => (name ∉ denied w) ∧ (files w !! name = Some text)
  | None => ∃ h, source = PyObj h ∧ readable h text w
  end.

(** [file] is something [dump] can write to: a name that [open] accepts,
    or an open file object with a [write] attribute. *)
Definition accepts (file : pyobj) (w : world) : Prop :=
  match as_filename file with
  | Some name => name ∉ denied w
  | None => ∃ h, file = PyObj h ∧ writable h w
  end.

(** What a call that took the store from [w] to [w'] wrote to [file]: the
    whole content of a file given by name, the text added to a file
    object. *)
Definition wrote (file : pyobj) (out : string) (w w' : world) : Prop :=
  match as_filename file with
  | Some name => files w' !! name = Some out
  | None => ∃ h, file = PyObj h ∧ written h w' = written h w +:+ out
  end.

(** A call of one of the six functions, and the store after a sequence of
    calls, whatever each of them returned or raised. *)
Inductive call :=
| CallDecode (s : string) (model : option Model) (triples : bool)
| CallEncode (g : Graph) (top : option string) (model : option Model)
    (triples : bool) (indent : indent_t) (compact : bool)
| CallLoad (source : pyobj) (model : option Model) (triples : bool)
| CallLoads (text : string) (model : option Model) (triples : bool)
| CallDump (graphs : list Graph) (file : pyobj) (model : option Model)
    (triples : bool) (indent : indent_t) (compact : bool)
| CallDumps (graphs : list Graph) (model : option Model) (triples : bool)
    (indent : indent_t) (compact : bool).

Definition perform (c : call) (w : world) : world :=
  match c with
  | CallDecode s model triples => after (decode s model triples) w
  | CallEncode g top model triples indent compact =>
      after (encode g top model triples indent compact) w
  | CallLoad source model triples => after (load source model triples) w
  | CallLoads text model triples => after (loads text model triples) w
  | CallDump graphs file model triples indent compact =>
      after (dump graphs file model triples indent compact) w
  | CallDumps graphs model triples indent compact =>
      after (dumps graphs model triples indent compact) w
  end.

(** The model a call passes, and what a call needs of the store to get as
    far as its codec: [load] a source it can read, [dump] a sink it can
    write to. *)
Definition call_model (c : call) : option Model :=
  match c with
  | CallDecode _ model _ | CallEncode _ _ model _ _ _
  | CallLoad _ model _ | CallLoads _ model _
  | CallDump _ _ model _ _ _ | CallDumps _ model _ _ _ => model
  end.

Definition call_ready (c : call) (w : world) : Prop :=
  match c with
  | CallLoad source _ _ => ∃ text, holds_text source text w
  | CallDump _ file _ _ _ _ => accepts file w
  | _ => True
  end.

Definition perform_all (cs : list call) (w : world) : world :=
  foldl (λ w c, perform c w) w cs.

(** Between two stores: no file changed, and every file object of the
    first is in the second with the same written text, as open or closed
    as it was. *)
Definition untouched (w w' : world) : Prop :=
  files w' = files w ∧
  ∀ h st, streams w !! h = Some st →
    ∃ st', streams w' !! h = Some st'
           ∧ s_written st' = s_written st ∧ s_closed st' = s_closed st.

(** Between two stores: no file changed, every file object other than [h]
    is the same, and [h], if it is there, differs only by some text added
    at the end of what was written to it. *)
Definition appended (h : handle) (w w' : world) : Prop :=
  files w' = files w ∧
  (∀ h' : handle, h' ≠ h → streams w' !! h' = streams w !! h') ∧
  ∃ out, streams w' !! h = put_text out <$> streams w !! h.

(** A computation that takes every store to one related to it by [R]. *)
Definition preserves (R : world → world → Prop) {A} (m : M A) : Prop :=
  ∀ w, R w (after m w).

End Interface.

Arguments Ok {_ _} _.
Arguments Raise {_ _} _.

(** A store to run the toy engine in: a file ["in.txt"] holding ["ab"], a
    name [open] refuses, and one open file object over the same text. *)
Definition toy_world : @world toy_engine :=
  @World toy_engine [] {["in.txt" := "ab"]} {["locked"]}
    [@Stream true true "ab" "" false None].

(** The same store with its file object closed. *)
Definition toy_closed_world : @world toy_engine :=
  @World toy_engine [] {["in.txt" := "ab"]} {["locked"]}
    [@Stream true true "ab" "" true None].

(** * Facts *)

(** ** Text *)

Lemma str_app_nil_l (s : string) : "" +:+ s = s.
Proof. reflexivity. Qed.

Lemma str_app_cons (a : ascii) (s t : string) :
  String a s +:+ t = String a (s +:+ t).
Proof. reflexivity. Qed.

Lemma str_app_nil_r (s : string) : s +:+ "" = s.
Proof.
  induction s as [|a s IH]; [reflexivity|].
  rewrite str_app_cons. by rewrite IH.
Qed.

Lemma str_app_assoc (s t u : string) : (s +:+ t) +:+ u = s +:+ (t +:+ u).
Proof.
  induction s as [|a s IH]; [reflexivity|].
  rewrite !str_app_cons. by rewrite IH.
Qed.

Lemma concat_nil_cons (s : string) (l : list string) :
  String.concat "" (s :: l) = s +:+ String.concat "" l.
Proof.
  destruct l as [|s' l]; simpl.
  - by rewrite str_app_nil_r.
  - reflexivity.
Qed.

Lemma concat_nil_app (l k : list string) :
  String.concat "" (l ++ k) = String.concat "" l +:+ String.concat "" k.
Proof.
  induction l as [|s l IH].
  - reflexivity.
  - rewrite <- app_comm_cons, !concat_nil_cons, IH.
    by rewrite str_app_assoc.
Qed.

Lemma join_cons_cons (sep s s' : string) (l : list string) :
  join sep (s :: s' :: l) = s +:+ sep +:+ join sep (s' :: l).
Proof. reflexivity. Qed.

Section Facts.
Context `{Engine}.

(** ** Running a computation step by step *)

Lemma bind_ok {A B} (m : M A) (f : A → M B) w a w' :
  m w = (Ok a, w') → (m ≫= f) w = f a w'.
Proof. intros Hm. unfold mbind, M_bind. by rewrite Hm. Qed.

Lemma bind_raise {A B} (m : M A) (f : A → M B) w e w' :
  m w = (Raise e, w') → (m ≫= f) w = (Raise e, w').
Proof. intros Hm. unfold mbind, M_bind. by rewrite Hm. Qed.

Lemma world_eta (w : world) :
  World (codecs w) (files w) (denied w) (streams w) = w.
Proof. by destruct w. Qed.

Lemma put_text_nil (st : stream) : put_text "" st = st.
Proof. destruct st. unfold put_text. simpl. by rewrite str_app_nil_r. Qed.

Lemma put_text_put_text (a b : string) (st : stream) :
  put_text b (put_text a st) = put_text (a +:+ b) st.
Proof. unfold put_text. simpl. by rewrite str_app_assoc. Qed.

Lemma emit_nil h w : emit h "" w = w.
Proof.
  unfold emit, with_streams.
  rewrite list_alter_id by apply put_text_nil.
  apply world_eta.
Qed.

Lemma emit_emit h a b w : emit h b (emit h a w) = emit h (a +:+ b) w.
Proof.
  unfold emit, with_streams. simpl. f_equal.
  rewrite list_alter_alter_eq.
  apply list_alter_ext; [|done].
  intros st _. apply put_text_put_text.
Qed.

Lemma codecs_emit h s w : codecs (emit h s w) = codecs w.
Proof. reflexivity. Qed.

Lemma files_emit h s w : files (emit h s w) = files w.
Proof. reflexivity. Qed.

Lemma streams_emit h s w (st : stream) :
  streams w !! h = Some st → streams (emit h s w) !! h = Some (put_text s st).
Proof.
  intros Hst. unfold emit. simpl.
  by rewrite list_lookup_alter_eq, Hst.
Qed.

Lemma streams_emit_ne h h' s w :
  h ≠ h' → streams (emit h s w) !! h' = streams w !! h'.
Proof. intros Hne. unfold emit. simpl. by apply list_lookup_alter_ne. Qed.

Lemma writable_emit h s w : writable h w → writable h (emit h s w).
Proof.
  intros (st & Hst & Hw & Hc).
  exists (put_text s st). split; [by apply streams_emit|]. done.
Qed.

Lemma written_emit h s w :
  writable h w → written h (emit h s w) = written h w +:+ s.
Proof.
  intros (st & Hst & _). unfold written.
  by rewrite (streams_emit _ _ _ _ Hst), Hst.
Qed.

Lemma write_run h s w :
  writable h w → write (PyObj h) s w = (Ok (), emit h s w).
Proof.
  intros (st & Hst & Hw & Hc). unfold write.
  by rewrite Hst, Hw, Hc.
Qed.

Lemma print_run h s w :
  writable h w → print s (PyObj h) w = (Ok (), emit h (s +:+ nl) w).
Proof.
  intros Hw. unfold print.
  rewrite (bind_ok _ _ _ _ _ (write_run h s w Hw)).
  rewrite write_run by by apply writable_emit.
  by rewrite emit_emit.
Qed.

Lemma print_blank_run h w :
  writable h w → print_blank (PyObj h) w = (Ok (), emit h nl w).
Proof. apply write_run. Qed.

Lemma codec_model_run c model w :
  codecs w !! c = Some model → codec_model c w = (Ok model, w).
Proof. intros Hc. unfold codec_model. by rewrite Hc. Qed.

Lemma from_engine_run {A} (r : CodecExn + A) w :
  from_engine r w =
  (match r with inl e => Raise (CodecError e) | inr a => Ok a end, w).
Proof. by destruct r. Qed.

Lemma codec_encode_run c model g top triples indent compact w :
  codecs w !! c = Some model →
  codec_encode c g top triples indent compact w =
  (match engine_encode model g top triples indent compact with
   | inl e => Raise (CodecError e)
   | inr s => Ok s
   end, w).
Proof.
  intros Hc. unfold codec_encode.
  rewrite (bind_ok _ _ _ _ _ (codec_model_run _ _ _ Hc)).
  apply from_engine_run.
Qed.

Lemma codec_decode_run c model s triples w :
  codecs w !! c = Some model →
  codec_decode c s triples w =
  (match engine_decode model s triples with
   | inl e => Raise (CodecError e)
   | inr g => Ok g
   end, w).
Proof.
  intros Hc. unfold codec_decode.
  rewrite (bind_ok _ _ _ _ _ (codec_model_run _ _ _ Hc)).
  apply from_engine_run.
Qed.

Lemma PENMANCodec_run model w :
  PENMANCodec model w =
  (Ok (length (codecs w)), with_codecs (λ l, l ++ [model]) w).
Proof. reflexivity. Qed.

Lemma codecs_new model w :
  codecs (with_codecs (λ l, l ++ [model]) w) !! length (codecs w) = Some model.
Proof. simpl. by rewrite list_lookup_middle. Qed.

(** ** Sequences of outcomes *)

Lemma successes_all {E A} (l : list A) :
  successes (inr <$> l : list (E + A)) = l.
Proof. induction l as [|a l IH]; csimpl; [done|by rewrite IH]. Qed.

Lemma failure_all {E A} (l : list A) :
  failure (inr <$> l : list (E + A)) = None.
Proof. induction l as [|a l IH]; csimpl; done. Qed.

Lemma successes_until {E A} (l : list A) (e : E) (rest : list (E + A)) :
  successes ((inr <$> l) ++ inl e :: rest) = l.
Proof. induction l as [|a l IH]; csimpl; [done|by rewrite IH]. Qed.

Lemma failure_until {E A} (l : list A) (e : E) (rest : list (E + A)) :
  failure ((inr <$> l) ++ inl e :: rest) = Some e.
Proof. induction l as [|a l IH]; csimpl; done. Qed.

(** ** Generators *)

Lemma list_from_engine {A} (rs : list (CodecExn + A)) w :
  list_ (from_engine <$> rs) w = (ends_with (failure rs) (successes rs), w).
Proof.
  induction rs as [|[e|a] rs IH]; csimpl.
  - reflexivity.
  - reflexivity.
  - unfold mbind, M_bind. simpl. unfold mbind, M_bind in IH. rewrite IH.
    by destruct (failure rs).
Qed.

Lemma encodings_cons model triples indent compact g (gs : list Graph) :
  encodings model triples indent compact (g :: gs) =
  engine_encode model g None triples indent compact
    :: encodings model triples indent compact gs.
Proof. reflexivity. Qed.

Lemma concat_triple (s : string) (l : list string) :
  String.concat "" ([nl; s; nl] ++ l) = (nl +:+ s +:+ nl) +:+ String.concat "" l.
Proof.
  rewrite concat_nil_app, !concat_nil_cons. simpl String.concat.
  by rewrite str_app_nil_r.
Qed.

Lemma list_encode c model triples indent compact (gs : list Graph) w :
  codecs w !! c = Some model →
  list_ ((λ g, codec_encode c g None triples indent compact) <$> gs) w =
  (ends_with (failure (encodings model triples indent compact gs))
     (successes (encodings model triples indent compact gs)), w).
Proof.
  intros Hc. induction gs as [|g gs IH].
  - reflexivity.
  - rewrite fmap_cons, encodings_cons. cbn [list_].
    unfold mbind at 1, M_bind at 1.
    rewrite (codec_encode_run _ _ _ _ _ _ _ _ Hc).
    destruct (engine_encode model g None triples indent compact) as [e|s];
      [reflexivity|].
    unfold mbind at 1, M_bind at 1. rewrite IH.
    cbn [successes failure].
    by destruct (failure _).
Qed.

Lemma for_encode c model triples indent compact h (gs : list Graph) w :
  codecs w !! c = Some model →
  writable h w →
  for_ ((λ g, codec_encode c g None triples indent compact) <$> gs)
       (λ s, print_blank (PyObj h);; print s (PyObj h)) w =
  (ends_with (failure (encodings model triples indent compact gs)) (),
   emit h (String.concat ""
             (successes (encodings model triples indent compact gs)
                ≫= λ s', [nl; s'; nl])) w).
Proof.
  intros Hc. revert w Hc.
  induction gs as [|g gs IH]; intros w Hc Hw.
  - cbn. by rewrite emit_nil.
  - rewrite fmap_cons, encodings_cons. cbn [for_].
    unfold mbind at 1, M_bind at 1.
    rewrite (codec_encode_run _ _ _ _ _ _ _ _ Hc).
    destruct (engine_encode model g None triples indent compact) as [e|s].
    + cbn. by rewrite emit_nil.
    + unfold mbind at 1, M_bind at 1.
      unfold mbind at 1, M_bind at 1.
      rewrite (print_blank_run _ _ Hw).
      rewrite print_run by by apply writable_emit.
      rewrite emit_emit.
      rewrite IH; [|done|by apply writable_emit].
      rewrite emit_emit. cbn [successes failure].
      rewrite bind_cons, concat_triple.
      by rewrite !str_app_assoc.
Qed.

Lemma _dump_run c model triples indent compact h (gs : list Graph) w :
  codecs w !! c = Some model →
  writable h w →
  _dump (PyObj h) gs c triples indent compact w =
  (ends_with (failure (encodings model triples indent compact gs)) (),
   emit h (dump_text (successes (encodings model triples indent compact gs)))
     w).
Proof.
  intros Hc Hw. unfold _dump, dump_text.
  destruct gs as [|g gs].
  - cbn. by rewrite emit_nil.
  - rewrite fmap_cons, encodings_cons. cbn [next].
    unfold mbind at 1, M_bind at 1, try_except_StopIteration.
    unfold mbind at 1, M_bind at 1.
    unfold mbind at 1, M_bind at 1.
    rewrite (codec_encode_run _ _ _ _ _ _ _ _ Hc).
    destruct (engine_encode model g None triples indent compact) as [e|s].
    + cbn. by rewrite emit_nil.
    + cbn [fst snd]. unfold mret at 1, M_ret at 1. cbn [fst snd].
      unfold mbind at 1, M_bind at 1.
      rewrite (print_run _ _ _ Hw).
      unfold mret at 1, M_ret at 1.
      rewrite (for_encode c model); [|done|by apply writable_emit].
      rewrite emit_emit. cbn [successes failure dump_writes].
      rewrite !concat_nil_cons.
      by rewrite !str_app_assoc.
Qed.

(** ** Files *)

Lemma alter_last {A} (f : A → A) (l : list A) (x : A) :
  alter f (length l) (l ++ [x]) = l ++ [f x].
Proof.
  replace (length l) with (length l + 0) by lia.
  by rewrite alter_app_r.
Qed.

Lemma open_read_run file text w :
  file ∉ denied w →
  files w !! file = Some text →
  open_ file ModeR w =
  (Ok (length (streams w)),
   with_streams (λ l, l ++ [fresh_stream text None]) w).
Proof.
  intros Hd Hf. unfold open_.
  destruct (decide (file ∈ denied w)); [done|]. by rewrite Hf.
Qed.

Lemma open_write_run file w :
  file ∉ denied w →
  open_ file ModeW w =
  (Ok (length (streams w)),
   with_streams (λ l, l ++ [fresh_stream "" (Some file)])
     (with_files (insert file "") w)).
Proof.
  intros Hd. unfold open_.
  by destruct (decide (file ∈ denied w)).
Qed.

Lemma close_run fh st w :
  streams w !! fh = Some st →
  s_closed st = false →
  close fh w =
  (Ok (),
   with_streams (alter mark_closed fh)
     (match s_flush st with
      | Some file => with_files (insert file (s_written st)) w
      | None => w
      end)).
Proof. intros Hst Hc. unfold close. by rewrite Hst, Hc. Qed.

Lemma finally_run {A} (m : M A) (fin : M unit) w r w' w'' :
  m w = (r, w') → fin w' = (Ok (), w'') → finally m fin w = (r, w'').
Proof. intros Hm Hf. unfold finally. by rewrite Hm, Hf. Qed.

(** ** The functions on each kind of argument *)

Lemma dump_stream_run (gs : list Graph) h model triples indent compact w :
  writable h w →
  dump gs (PyObj h) model triples indent compact w =
  (ends_with (failure (encodings model triples indent compact gs)) (),
   emit h (dump_text (successes (encodings model triples indent compact gs)))
     (with_codecs (λ l, l ++ [model]) w)).
Proof.
  intros Hw. unfold dump.
  rewrite (bind_ok _ _ _ _ _ (PENMANCodec_run model w)).
  cbn [as_filename].
  assert (writable h (with_codecs (λ l, l ++ [model]) w)) as Hw' by done.
  unfold mbind at 1, M_bind at 1, assert_, hasattr_write.
  unfold mbind at 1, M_bind at 1. cbn [has_attribute].
  destruct Hw as (st & Hst & Hwr & Hc). cbn [streams with_codecs].
  rewrite Hst, Hwr. unfold mret at 1, M_ret at 1.
  apply _dump_run; [apply codecs_new|done].
Qed.

Lemma dump_path_run (gs : list Graph) file name model triples indent compact w :
  as_filename file = Some name →
  name ∉ denied w →
  dump gs file model triples indent compact w =
  (ends_with (failure (encodings model triples indent compact gs)) (),
   World (codecs w ++ [model])
     (<[name :=
          dump_text (successes (encodings model triples indent compact gs))]>
        (files w))
     (denied w)
     (streams w ++
        [Stream true true ""
           (dump_text (successes (encodings model triples indent compact gs)))
           true (Some name)])).
Proof.
  intros Hname Hd. unfold dump.
  rewrite (bind_ok _ _ _ _ _ (PENMANCodec_run model w)).
  rewrite Hname. unfold with_open.
  set (w0 := with_codecs (λ l, l ++ [model]) w).
  assert (name ∉ denied w0) as Hd0 by done.
  rewrite (bind_ok _ _ _ _ _ (open_write_run name w0 Hd0)).
  set (w1 := with_streams _ _).
  assert (streams w1 !! length (streams w0)
          = Some (fresh_stream "" (Some name))) as Hst.
  { subst w1. cbn [streams with_streams with_files].
    by rewrite list_lookup_middle. }
  assert (writable (length (streams w0)) w1) as Hw by (by eexists).
  assert (codecs w1 !! length (codecs w) = Some model) as Hc
    by apply codecs_new.
  erewrite finally_run;
    [reflexivity
    |by apply (_dump_run _ model)
    |].
  erewrite close_run;
    [|by apply streams_emit|reflexivity].
  f_equal. subst w1 w0.
  unfold emit, with_streams, with_files, with_codecs, put_text, fresh_stream.
  cbn [codecs files denied streams s_flush s_written s_read s_write s_data
       s_closed].
  rewrite list_alter_alter_eq, alter_last, insert_insert_eq.
  reflexivity.
Qed.

Lemma iterdecode_list_run c model (lines : pyobj) text triples w :
  codecs w !! c = Some model →
  read_lines lines w = (Ok text, w) →
  (codec_iterdecode c lines triples ≫= list_) w =
  (ends_with (failure (engine_iterdecode model text triples))
     (successes (engine_iterdecode model text triples)), w).
Proof.
  intros Hc Hr. unfold codec_iterdecode.
  unfold mbind at 1, M_bind at 1.
  rewrite (bind_ok _ _ _ _ _ (codec_model_run _ _ _ Hc)).
  rewrite (bind_ok _ _ _ _ _ Hr).
  unfold mret at 1, M_ret at 1.
  apply list_from_engine.
Qed.

Lemma loads_run text model triples w :
  loads text model triples w =
  (ends_with (failure (engine_iterdecode model text triples))
     (successes (engine_iterdecode model text triples)),
   with_codecs (λ l, l ++ [model]) w).
Proof.
  unfold loads.
  rewrite (bind_ok _ _ _ _ _ (PENMANCodec_run model w)).
  apply (iterdecode_list_run _ model); [apply codecs_new|done].
Qed.

Lemma load_stream_run h text model triples w :
  readable h text w →
  load (PyObj h) model triples w =
  (ends_with (failure (engine_iterdecode model text triples))
     (successes (engine_iterdecode model text triples)),
   with_codecs (λ l, l ++ [model]) w).
Proof.
  intros (st & Hst & Hr & Hc & Hd). unfold load.
  rewrite (bind_ok _ _ _ _ _ (PENMANCodec_run model w)).
  cbn [as_filename].
  unfold mbind at 1, M_bind at 1, assert_, hasattr_read.
  unfold mbind at 1, M_bind at 1. cbn [has_attribute streams with_codecs].
  rewrite Hst, Hr. unfold mret at 1, M_ret at 1.
  apply (iterdecode_list_run _ model); [apply codecs_new|].
  unfold read_lines. cbn [streams with_codecs]. by rewrite Hst, Hc, Hd.
Qed.

Lemma load_path_run source name text model triples w :
  as_filename source = Some name →
  name ∉ denied w →
  files w !! name = Some text →
  load source model triples w =
  (ends_with (failure (engine_iterdecode model text triples))
     (successes (engine_iterdecode model text triples)),
   World (codecs w ++ [model]) (files w) (denied w)
     (streams w ++ [Stream true true text "" true None])).
Proof.
  intros Hname Hd Hf. unfold load.
  rewrite (bind_ok _ _ _ _ _ (PENMANCodec_run model w)).
  rewrite Hname. unfold with_open.
  set (w0 := with_codecs (λ l, l ++ [model]) w).
  assert (name ∉ denied w0) as Hd0 by done.
  assert (files w0 !! name = Some text) as Hf0 by done.
  rewrite (bind_ok _ _ _ _ _ (open_read_run name text w0 Hd0 Hf0)).
  set (w1 := with_streams _ _).
  assert (streams w1 !! length (streams w0) = Some (fresh_stream text None))
    as Hst.
  { subst w1. cbn [streams with_streams]. by rewrite list_lookup_middle. }
  erewrite finally_run;
    [reflexivity
    |apply (iterdecode_list_run _ model _ text);
       [apply codecs_new|unfold read_lines; by rewrite Hst]
    |].
  erewrite close_run; [|exact Hst|reflexivity].
  f_equal. subst w1 w0.
  unfold with_streams, with_codecs, fresh_stream.
  cbn [codecs files denied streams s_flush].
  by rewrite alter_last.
Qed.

(** ** Computations that open and close nothing *)

Lemma same_streams_refl w : same_streams w w.
Proof. by split. Qed.

Lemma same_streams_trans w1 w2 w3 :
  same_streams w1 w2 → same_streams w2 w3 → same_streams w1 w3.
Proof.
  intros [Hl1 Hc1] [Hl2 Hc2]. split.
  - by rewrite Hl2.
  - intros h. by rewrite Hc2.
Qed.

Lemma same_streams_emit h s w : same_streams w (emit h s w).
Proof.
  split.
  - unfold emit. cbn [streams with_streams]. apply length_alter.
  - intros h'. unfold emit. cbn [streams with_streams].
    destruct (decide (h = h')) as [->|Hne].
    + rewrite list_lookup_alter_eq. by destruct (streams w !! h').
    + by rewrite list_lookup_alter_ne.
Qed.

Lemma keeps_pure {A} (m : M A) : (∀ w, after m w = w) → keeps_streams m.
Proof. intros Hm w. rewrite Hm. apply same_streams_refl. Qed.

Lemma keeps_ret {A} (a : A) : keeps_streams (mret a).
Proof. by apply keeps_pure. Qed.

Lemma keeps_raise {A} (e : exn) : keeps_streams (raise e : M A).
Proof. by apply keeps_pure. Qed.

Lemma keeps_bind {A B} (m : M A) (f : A → M B) :
  keeps_streams m → (∀ a, keeps_streams (f a)) → keeps_streams (m ≫= f).
Proof.
  intros Hm Hf w. specialize (Hm w).
  unfold after, mbind, M_bind in *.
  destruct (m w) as [[a|e] w']; cbn [snd] in *; [|done].
  eapply same_streams_trans; [exact Hm|apply Hf].
Qed.

Lemma keeps_from_engine {A} (r : CodecExn + A) : keeps_streams (from_engine r).
Proof. apply keeps_pure. intros w. unfold after. by rewrite from_engine_run. Qed.

Lemma keeps_codec_model c : keeps_streams (codec_model c).
Proof.
  apply keeps_pure. intros w. unfold after, codec_model.
  by destruct (codecs w !! c).
Qed.

Lemma keeps_codec_encode c g top triples indent compact :
  keeps_streams (codec_encode c g top triples indent compact).
Proof.
  apply keeps_bind; [apply keeps_codec_model|].
  intros model. apply keeps_from_engine.
Qed.

Lemma keeps_PENMANCodec model : keeps_streams (PENMANCodec model).
Proof. intros w. by split. Qed.

Lemma keeps_read_lines lines : keeps_streams (read_lines lines).
Proof.
  apply keeps_pure. intros w. unfold after, read_lines.
  destruct lines as [| | | |h]; try done.
  destruct (streams w !! h) as [st|]; [|done]. by destruct (s_closed st).
Qed.

Lemma keeps_list_from_engine {A} (rs : list (CodecExn + A)) :
  keeps_streams (list_ (from_engine <$> rs)).
Proof. apply keeps_pure. intros w. unfold after. by rewrite list_from_engine. Qed.

Lemma keeps_iterdecode_list c lines triples :
  keeps_streams (codec_iterdecode c lines triples ≫= list_).
Proof.
  intros w. unfold after, codec_iterdecode, mbind, M_bind.
  pose proof (keeps_codec_model c w) as Hm. unfold after in Hm.
  destruct (codec_model c w) as [[model|e] w1]; cbn [snd] in *; [|done].
  pose proof (keeps_read_lines lines w1) as Hr. unfold after in Hr.
  destruct (read_lines lines w1) as [[text|e] w2]; cbn [snd] in *;
    [|by eapply same_streams_trans].
  unfold mret, M_ret. rewrite list_from_engine. cbn [snd].
  by eapply same_streams_trans.
Qed.

Lemma keeps_write fh s : keeps_streams (write fh s).
Proof.
  intros w. unfold after, write.
  destruct fh as [| | | |h]; try apply same_streams_refl.
  destruct (streams w !! h) as [st|]; [|apply same_streams_refl].
  destruct (s_write st); [|apply same_streams_refl].
  destruct (s_closed st); [apply same_streams_refl|].
  apply same_streams_emit.
Qed.

Lemma keeps_print s fh : keeps_streams (print s fh).
Proof. apply keeps_bind; [apply keeps_write|]. intros _. apply keeps_write. Qed.

Lemma keeps_print_blank fh : keeps_streams (print_blank fh).
Proof. apply keeps_write. Qed.

Lemma keeps_assert (b : M bool) : keeps_streams b → keeps_streams (assert_ b).
Proof.
  intros Hb. apply keeps_bind; [done|].
  intros [|]; [apply keeps_ret|apply keeps_raise].
Qed.

Lemma keeps_hasattr_read v : keeps_streams (hasattr_read v).
Proof. by apply keeps_pure. Qed.

Lemma keeps_hasattr_write v : keeps_streams (hasattr_write v).
Proof. by apply keeps_pure. Qed.

Lemma keeps_for {A} (gen : generator A) (body : A → M unit) :
  Forall keeps_streams gen →
  (∀ a, keeps_streams (body a)) →
  keeps_streams (for_ gen body).
Proof.
  intros Hgen Hbody. induction Hgen as [|m gen Hm Hgen IH].
  - apply keeps_ret.
  - cbn [for_]. apply keeps_bind; [done|]. intros a.
    apply keeps_bind; [apply Hbody|]. intros _. exact IH.
Qed.

Lemma keeps_encoders c triples indent compact (gs : list Graph) :
  Forall keeps_streams
    ((λ g, codec_encode c g None triples indent compact) <$> gs).
Proof.
  apply Forall_fmap, Forall_forall. intros g _.
  apply keeps_codec_encode.
Qed.

Lemma keeps__dump fh (gs : list Graph) c triples indent compact :
  keeps_streams (_dump fh gs c triples indent compact).
Proof.
  intros w. unfold after, _dump.
  destruct gs as [|g gs].
  - cbn. apply same_streams_refl.
  - rewrite fmap_cons. cbn [next].
    unfold mbind at 1, M_bind at 1, try_except_StopIteration.
    unfold mbind at 1, M_bind at 1.
    unfold mbind at 1, M_bind at 1.
    pose proof (keeps_codec_encode c g None triples indent compact w) as He.
    unfold after in He.
    destruct (codec_encode c g None triples indent compact w)
      as [[s|e] w1]; cbn [snd fst] in *.
    + unfold mret at 1, M_ret at 1. cbn [fst snd].
      unfold mbind at 1, M_bind at 1.
      pose proof (keeps_print s fh w1) as Hp. unfold after in Hp.
      destruct (print s fh w1) as [[[]|e] w2]; cbn [snd] in *.
      * unfold mret at 1, M_ret at 1.
        eapply same_streams_trans; [exact He|].
        eapply same_streams_trans; [exact Hp|].
        apply (keeps_for _ (λ s0, print_blank fh;; print s0 fh)).
        -- apply keeps_encoders.
        -- intros s0. apply keeps_bind; [apply keeps_print_blank|].
           intros _. apply keeps_print.
      * destruct e; cbn [snd]; by eapply same_streams_trans.
    + destruct e; cbn [snd]; done.
Qed.

Lemma released_of_same w w' : same_streams w w' → streams_released w w'.
Proof.
  intros [Hl Hc]. split.
  - intros h st Hst. specialize (Hc h). rewrite Hst in Hc.
    destruct (streams w' !! h) as [st'|]; [|done].
    exists st'. split; [done|]. by injection Hc.
  - intros h st' Hh Hst'. apply lookup_lt_Some in Hst'. lia.
Qed.

Lemma with_open_released {A} file mode (body : pyobj → M A) w :
  (∀ fh, keeps_streams (body fh)) →
  streams_released w (after (with_open (open_ file mode) body) w).
Proof.
  intros Hbody. unfold after, with_open, mbind, M_bind.
  assert (∀ text flush w0, streams w0 = streams w →
    streams_released w
      (finally (body (PyObj (length (streams w)))) (close (length (streams w)))
         (with_streams (λ l, l ++ [fresh_stream text flush]) w0)).2) as Hopen.
  { intros text flush w0 Hw0. unfold finally.
    set (w1 := with_streams _ w0).
    pose proof (Hbody (PyObj (length (streams w))) w1) as [Hl Hc].
    unfold after in Hl, Hc.
    destruct (body (PyObj (length (streams w))) w1) as [r w2]; cbn [snd] in *.
    assert (streams w1 = streams w ++ [fresh_stream text flush]) as Hw1.
    { subst w1. cbn [streams with_streams]. by rewrite Hw0. }
    assert (∃ st, streams w2 !! length (streams w) = Some st
                  ∧ s_closed st = false) as (st & Hst & Hcl).
    { specialize (Hc (length (streams w))).
      rewrite Hw1, list_lookup_middle in Hc by done.
      destruct (streams w2 !! length (streams w)) as [st|]; [|done].
      exists st. split; [done|]. by injection Hc. }
    rewrite (close_run _ _ _ Hst Hcl).
    assert (∀ w3, streams w3 = streams w2 →
      streams_released w
        (with_streams (alter mark_closed (length (streams w))) w3)) as Hfin.
    { intros w3 Hw3. split.
      - intros h st0 Hst0. cbn [streams with_streams]. rewrite Hw3.
        assert (h < length (streams w)) as Hlt by by eapply lookup_lt_Some.
        rewrite list_lookup_alter_ne by lia.
        specialize (Hc h). rewrite Hw1, lookup_app_l, Hst0 in Hc by done.
        destruct (streams w2 !! h) as [st'|]; [|done].
        exists st'. split; [done|]. by injection Hc.
      - intros h st' Hh Hst'. cbn [streams with_streams] in Hst'.
        rewrite Hw3 in Hst'.
        assert (h < length (streams w2)) as Hlt.
        { apply lookup_lt_Some in Hst'. by rewrite length_alter in Hst'. }
        rewrite Hl, Hw1, length_app in Hlt. cbn [length] in Hlt.
        assert (h = length (streams w)) as -> by lia.
        rewrite list_lookup_alter_eq, Hst in Hst'.
        by injection Hst' as <-. }
    destruct r as [a|e]; cbn [snd]; apply Hfin; by destruct (s_flush st). }
  unfold open_.
  destruct (decide (file ∈ denied w)).
  { cbn [snd]. apply released_of_same, same_streams_refl. }
  destruct mode.
  - destruct (files w !! file) as [text|].
    + by apply Hopen.
    + cbn [snd]. apply released_of_same, same_streams_refl.
  - by apply Hopen.
Qed.

Lemma released_after_same w0 w w' :
  same_streams w0 w → streams_released w w' → streams_released w0 w'.
Proof.
  intros [Hl Hc] [H1 H2]. split.
  - intros h st Hst. specialize (Hc h). rewrite Hst in Hc.
    destruct (streams w !! h) as [st1|] eqn:Hst1; [|done].
    destruct (H1 h st1 Hst1) as (st' & Hst' & Hcl).
    exists st'. split; [done|]. rewrite Hcl. by injection Hc.
  - intros h st' Hh. apply H2. by rewrite Hl.
Qed.

Lemma load_released source model triples w :
  streams_released w (after (load source model triples) w).
Proof.
  unfold after, load.
  rewrite (bind_ok _ _ _ _ _ (PENMANCodec_run model w)).
  set (w0 := with_codecs _ w).
  apply (released_after_same w w0); [by split|].
  destruct (as_filename source) as [name|].
  - apply (with_open_released name ModeR). intros fh.
    apply keeps_iterdecode_list.
  - apply released_of_same.
    apply (keeps_bind (assert_ (hasattr_read source))).
    + apply keeps_assert, keeps_hasattr_read.
    + intros _. apply keeps_iterdecode_list.
Qed.

Lemma dump_released (gs : list Graph) file model triples indent compact w :
  streams_released w (after (dump gs file model triples indent compact) w).
Proof.
  unfold after, dump.
  rewrite (bind_ok _ _ _ _ _ (PENMANCodec_run model w)).
  set (w0 := with_codecs _ w).
  apply (released_after_same w w0); [by split|].
  destruct (as_filename file) as [name|].
  - apply (with_open_released name ModeW). intros fh.
    apply keeps__dump.
  - apply released_of_same.
    apply (keeps_bind (assert_ (hasattr_write file))).
    + apply keeps_assert, keeps_hasattr_write.
    + intros _. apply keeps__dump.
Qed.

(** ** The functions, whatever the kind of argument *)

Lemma decode_run s model triples w :
  decode s model triples w =
  (match engine_decode model s triples with
   | inl e => Raise (CodecError e)
   | inr g => Ok g
   end, with_codecs (λ l, l ++ [model]) w).
Proof.
  unfold decode.
  rewrite (bind_ok _ _ _ _ _ (PENMANCodec_run model w)).
  apply codec_decode_run, codecs_new.
Qed.

Lemma encode_run g top model triples indent compact w :
  encode g top model triples indent compact w =
  (match engine_encode model g top triples indent compact with
   | inl e => Raise (CodecError e)
   | inr s => Ok s
   end, with_codecs (λ l, l ++ [model]) w).
Proof.
  unfold encode.
  rewrite (bind_ok _ _ _ _ _ (PENMANCodec_run model w)).
  apply codec_encode_run, codecs_new.
Qed.

Lemma dumps_run (gs : list Graph) model triples indent compact w :
  dumps gs model triples indent compact w =
  (ends_with (failure (encodings model triples indent compact gs))
     (join (nl +:+ nl)
        (successes (encodings model triples indent compact gs))),
   with_codecs (λ l, l ++ [model]) w).
Proof.
  unfold dumps.
  rewrite (bind_ok _ _ _ _ _ (PENMANCodec_run model w)).
  unfold mbind, M_bind.
  rewrite (list_encode _ model) by apply codecs_new.
  by destruct (failure _).
Qed.

Lemma load_run source text model triples w :
  holds_text source text w →
  outcome (load source model triples) w =
  ends_with (failure (engine_iterdecode model text triples))
    (successes (engine_iterdecode model text triples)).
Proof.
  unfold holds_text, outcome.
  destruct (as_filename source) as [name|] eqn:Hname.
  - intros [Hd Hf]. by rewrite (load_path_run _ name text).
  - intros (h & -> & Hr). by rewrite (load_stream_run h text).
Qed.

Lemma dump_run (gs : list Graph) file model triples indent compact w :
  accepts file w →
  outcome (dump gs file model triples indent compact) w =
  ends_with (failure (encodings model triples indent compact gs)) ().
Proof.
  unfold accepts, outcome.
  destruct (as_filename file) as [name|] eqn:Hname.
  - intros Hd. by rewrite (dump_path_run _ _ name).
  - intros (h & -> & Hw). by rewrite dump_stream_run.
Qed.

Lemma dump_wrote (gs : list Graph) file model triples indent compact w :
  accepts file w →
  wrote file
    (dump_text (successes (encodings model triples indent compact gs)))
    w (after (dump gs file model triples indent compact) w).
Proof.
  unfold accepts, wrote, after.
  destruct (as_filename file) as [name|] eqn:Hname.
  - intros Hd. rewrite (dump_path_run _ _ name) by done.
    cbn [snd files]. apply lookup_insert_eq.
  - intros (h & -> & Hw). exists h. split; [done|].
    rewrite dump_stream_run by done. cbn [snd].
    by rewrite written_emit.
Qed.

Lemma perform_codecs (c : call) w :
  call_ready c w → codecs (perform c w) = codecs w ++ [call_model c].
Proof.
  destruct c as [s model triples|g top model triples indent compact
                |source model triples|text model triples
                |gs file model triples indent compact
                |gs model triples indent compact];
    cbn [call_ready perform call_model]; unfold after.
  - intros _. by rewrite decode_run.
  - intros _. by rewrite encode_run.
  - intros (text & Hsrc). unfold holds_text in Hsrc.
    destruct (as_filename source) as [name|] eqn:Hname.
    + destruct Hsrc as [Hd Hf]. by rewrite (load_path_run _ name text).
    + destruct Hsrc as (h & -> & Hr). by rewrite (load_stream_run h text).
  - intros _. by rewrite loads_run.
  - intros Hacc. unfold accepts in Hacc.
    destruct (as_filename file) as [name|] eqn:Hname.
    + by rewrite (dump_path_run _ _ name).
    + destruct Hacc as (h & -> & Hw). by rewrite dump_stream_run.
  - intros _. by rewrite dumps_run.
Qed.

(** ** Encoded graphs *)

Lemma encode_ok_iff g top model triples indent compact w s :
  outcome (encode g top model triples indent compact) w = Ok s ↔
  engine_encode model g top triples indent compact = inr s.
Proof.
  unfold outcome. rewrite encode_run. cbn [fst].
  destruct (engine_encode model g top triples indent compact);
    split; congruence.
Qed.

Lemma encode_raise_iff g top model triples indent compact w e :
  outcome (encode g top model triples indent compact) w = Raise e ↔
  ∃ e', e = CodecError e' ∧
        engine_encode model g top triples indent compact = inl e'.
Proof.
  unfold outcome. rewrite encode_run. cbn [fst].
  destruct (engine_encode model g top triples indent compact) as [e0|s].
  - split.
    + intros [= <-]. by exists e0.
    + intros (e' & -> & [= ->]). done.
  - split; [done|]. by intros (e' & _ & ?).
Qed.

Lemma encodings_all (gs : list Graph) (ss : list string)
    model triples indent compact w :
  Forall2 (λ g s,
    outcome (encode g None model triples indent compact) w = Ok s) gs ss →
  encodings model triples indent compact gs = inr <$> ss.
Proof.
  induction 1 as [|g s gs ss Hg _ IH]; [done|].
  rewrite encodings_cons, fmap_cons, IH.
  by apply encode_ok_iff in Hg as ->.
Qed.

Lemma encodings_app model triples indent compact (gs gs' : list Graph) :
  encodings model triples indent compact (gs ++ gs') =
  encodings model triples indent compact gs
    ++ encodings model triples indent compact gs'.
Proof. apply fmap_app. Qed.

(** ** The specification's wording of the output *)

Lemma foldl_sep_app (sep p a : string) (rest : list string) :
  foldl (λ acc s', (acc +:+ sep) +:+ s') (p +:+ a) rest =
  p +:+ foldl (λ acc s', (acc +:+ sep) +:+ s') a rest.
Proof.
  revert a. induction rest as [|s rest IH]; intros a; [done|].
  cbn [foldl]. by rewrite !str_app_assoc, <- IH.
Qed.

Lemma join_dumps_spec (ss : list string) : join (nl +:+ nl) ss = dumps_spec ss.
Proof.
  destruct ss as [|s rest]; [done|]. unfold dumps_spec.
  revert s. induction rest as [|s' rest IH]; intros s; [done|].
  rewrite join_cons_cons, IH. cbn [foldl].
  by rewrite (str_app_assoc s), 2!foldl_sep_app.
Qed.

Lemma dump_text_rest (ss : list string) :
  String.concat "" (ss ≫= λ s', [nl; s'; nl]) = dump_spec_rest ss.
Proof.
  induction ss as [|s ss IH]; [done|].
  rewrite bind_cons, concat_triple, IH. cbn [dump_spec_rest].
  by rewrite !str_app_assoc.
Qed.

Lemma dump_text_spec (ss : list string) : dump_text ss = dump_spec ss.
Proof.
  destruct ss as [|s rest]; [done|].
  unfold dump_text, dump_spec. cbn [dump_writes].
  rewrite !concat_nil_cons, dump_text_rest.
  by rewrite str_app_assoc.
Qed.

Lemma dump_spec_dumps_spec (s : string) (rest : list string) :
  dump_spec (s :: rest) = dumps_spec (s :: rest) +:+ nl.
Proof.
  rewrite <- join_dumps_spec. unfold dump_spec.
  revert s. induction rest as [|s' rest IH]; intros s.
  - cbn [dump_spec_rest]. by rewrite str_app_nil_r.
  - rewrite join_cons_cons. cbn [dump_spec_rest].
    rewrite !str_app_assoc, <- IH.
    by rewrite !str_app_assoc.
Qed.

End Facts.

(** * Properties of the specification *)

Section Properties.
Context `{Engine}.

(** C1.  For every list of graphs and every configuration, [dumps] returns
    the encodings of the graphs, in order, with exactly two line breaks
    between consecutive ones (every [encode] here is the public function
    under the same configuration, and succeeds): the empty list gives the
    empty string, a single graph gives its encoding exactly, and nothing
    follows the last graph. *)
Theorem dumps_joins_with_blank_line (gs : list Graph) (ss : list string)
    model triples indent compact w0 w :
  Forall2 (λ g s,
    outcome (encode g None model triples indent compact) w0 = Ok s) gs ss →
  outcome (dumps gs model triples indent compact) w = Ok (dumps_spec ss)
  ∧ (gs = [] → outcome (dumps gs model triples indent compact) w = Ok "")
  ∧ (∀ s, ss = [s] →
       outcome (dumps gs model triples indent compact) w = Ok s).
Proof.
  intros Hss.
  assert (outcome (dumps gs model triples indent compact) w
          = Ok (dumps_spec ss)) as Hout.
  { unfold outcome. rewrite dumps_run. cbn [fst].
    rewrite (encodings_all _ _ _ _ _ _ _ Hss).
    by rewrite failure_all, successes_all, join_dumps_spec. }
  split; [done|]. split.
  - intros ->. by inversion Hss; subst.
  - intros s ->. exact Hout.
Qed.

(** C2.  For every sequence of graphs that all encode and every sink that
    can be written to (a file name [open] accepts or an open file object
    with [write]), [dump] returns normally and writes the first encoding
    and a line break, then for each further graph a line break, its
    encoding and a line break.  For no graph it writes nothing: a file
    object is left as it was.  For at least one graph the output is the
    result of [dumps] on the same sequence followed by one line break. *)
Theorem dump_frames_every_graph (gs : list Graph) (ss : list string)
    file model triples indent compact w0 w :
  Forall2 (λ g s,
    outcome (encode g None model triples indent compact) w0 = Ok s) gs ss →
  accepts file w →
  let w' := after (dump gs file model triples indent compact) w in
  outcome (dump gs file model triples indent compact) w = Ok ()
  ∧ wrote file (dump_spec ss) w w'
  ∧ (gs = [] →
       wrote file "" w w' ∧ (as_filename file = None → streams w' = streams w))
  ∧ (gs ≠ [] →
       ∃ text, outcome (dumps gs model triples indent compact) w = Ok text
               ∧ wrote file (text +:+ nl) w w').
Proof.
  intros Hss Hacc w'.
  pose proof (encodings_all _ _ _ _ _ _ _ Hss) as Henc.
  pose proof (dump_wrote gs file model triples indent compact w Hacc) as Hw.
  rewrite Henc, successes_all, dump_text_spec in Hw. fold w' in Hw.
  split; [|split; [done|split]].
  - rewrite dump_run by done. by rewrite Henc, failure_all.
  - intros ->. inversion Hss; subst. split; [done|].
    intros Hnone. unfold accepts in Hacc. rewrite Hnone in Hacc.
    destruct Hacc as (h & -> & Hwr). subst w'. unfold after.
    rewrite dump_stream_run by done. cbn [snd encodings fmap list_fmap].
    cbn [successes dump_text dump_writes String.concat]. by rewrite emit_nil.
  - intros Hne. destruct ss as [|s rest].
    { inversion Hss; subst. done. }
    exists (dumps_spec (s :: rest)). split.
    + unfold outcome. rewrite dumps_run. cbn [fst].
      by rewrite Henc, failure_all, successes_all, join_dumps_spec.
    + by rewrite <- dump_spec_dumps_spec.
Qed.

(** C5.  When the graphs before position [k] encode and encoding the graph
    at position [k] raises, [dump] raises that exception, and what it wrote
    to the sink is exactly the framed output of the graphs before [k]:
    nothing of it is undone and nothing follows it.  When the first graph
    fails, nothing is written: a file object is left as it was. *)
Theorem dump_keeps_what_was_written (pre post : list Graph) (g : Graph)
    (ss : list string) (e : exn) file model triples indent compact w0 w :
  Forall2 (λ g s,
    outcome (encode g None model triples indent compact) w0 = Ok s) pre ss →
  outcome (encode g None model triples indent compact) w0 = Raise e →
  accepts file w →
  let gs := pre ++ g :: post in
  let w' := after (dump gs file model triples indent compact) w in
  outcome (dump gs file model triples indent compact) w = Raise e
  ∧ wrote file (dump_spec ss) w w'
  ∧ (pre = [] →
       wrote file "" w w' ∧ (as_filename file = None → streams w' = streams w)).
Proof.
  intros Hss He Hacc gs w'.
  apply encode_raise_iff in He as (e' & -> & He').
  assert (encodings model triples indent compact gs
          = (inr <$> ss) ++ inl e'
              :: encodings model triples indent compact post) as Henc.
  { subst gs. rewrite encodings_app, encodings_cons, He'.
    by rewrite (encodings_all _ _ _ _ _ _ _ Hss). }
  pose proof (dump_wrote gs file model triples indent compact w Hacc) as Hw.
  rewrite Henc, successes_until, dump_text_spec in Hw. fold w' in Hw.
  split; [|split; [done|]].
  - rewrite dump_run by done. by rewrite Henc, failure_until.
  - intros ->. inversion Hss; subst. split; [done|].
    intros Hnone. unfold accepts in Hacc. rewrite Hnone in Hacc.
    destruct Hacc as (h & -> & Hwr). subst w'. unfold after.
    rewrite dump_stream_run by done. cbn [snd].
    rewrite Henc. cbn [fmap list_fmap app successes].
    cbn [dump_text dump_writes String.concat]. by rewrite emit_nil.
Qed.

(** C3, as the code has it.  A [source] that is neither a [str] nor a
    [Path] and has no [read] attribute makes [load] raise
    [AssertionError], and a [file] that is neither and has no [write]
    attribute makes [dump] raise [AssertionError]: the same class for both,
    raised by the [assert] before anything is read, encoded or written. *)
Theorem unsupported_designator_raises_AssertionError (v : pyobj) w :
  as_filename v = None →
  (has_attribute s_read v w = false →
     ∀ model triples,
       outcome (load v model triples) w = Raise AssertionError)
  ∧ (has_attribute s_write v w = false →
       ∀ (gs : list Graph) model triples indent compact,
         outcome (dump gs v model triples indent compact) w
           = Raise AssertionError
         ∧ streams (after (dump gs v model triples indent compact) w)
             = streams w
         ∧ files (after (dump gs v model triples indent compact) w)
             = files w).
Proof.
  intros Hv. split.
  - intros Hr model triples. unfold outcome, load.
    rewrite (bind_ok _ _ _ _ _ (PENMANCodec_run model w)), Hv.
    unfold mbind, M_bind, assert_, hasattr_read.
    unfold mbind, M_bind.
    replace (has_attribute s_read v (with_codecs _ w))
      with (has_attribute s_read v w) by (by destruct v).
    by rewrite Hr.
  - intros Hw gs model triples indent compact. unfold outcome, after, dump.
    rewrite (bind_ok _ _ _ _ _ (PENMANCodec_run model w)), Hv.
    unfold mbind, M_bind, assert_, hasattr_write.
    unfold mbind, M_bind.
    replace (has_attribute s_write v (with_codecs _ w))
      with (has_attribute s_write v w) by (by destruct v).
    by rewrite Hw.
Qed.

(** C4.  When the decoded sequence of a source has some graphs and then a
    malformed element, [load] on the source and [loads] on its text raise
    that element's exception and return no list; when every element
    decodes, they return all the graphs in the order they were decoded. *)
Theorem load_is_all_or_nothing (source : pyobj) (text : string)
    model triples (gs : list Graph) w :
  holds_text source text w →
  (∀ e rest,
     engine_iterdecode model text triples = (inr <$> gs) ++ inl e :: rest →
     outcome (load source model triples) w = Raise (CodecError e)
     ∧ outcome (loads text model triples) w = Raise (CodecError e))
  ∧ (engine_iterdecode model text triples = inr <$> gs →
     outcome (load source model triples) w = Ok gs
     ∧ outcome (loads text model triples) w = Ok gs).
Proof.
  intros Hsrc. split.
  - intros e rest Hseq.
    rewrite (load_run _ text) by done. unfold outcome.
    rewrite loads_run, Hseq. cbn [fst].
    by rewrite failure_until.
  - intros Hseq.
    rewrite (load_run _ text) by done. unfold outcome.
    rewrite loads_run, Hseq. cbn [fst].
    by rewrite failure_all, successes_all.
Qed.

(** C6.  [load] given the name of a file and [load] given an open file
    object over the same text return the same result, and [dump] given the
    name of a file and [dump] given an open file object end the same way
    and write the same text: the content of the file is the text added to
    the file object. *)
Theorem path_and_stream_agree (file : pyobj) (name : string) w :
  as_filename file = Some name →
  name ∉ denied w →
  (∀ text h model triples,
     files w !! name = Some text →
     readable h text w →
     outcome (load file model triples) w
       = outcome (load (PyObj h) model triples) w)
  ∧ (∀ (gs : list Graph) h model triples indent compact,
       writable h w →
       outcome (dump gs file model triples indent compact) w
         = outcome (dump gs (PyObj h) model triples indent compact) w
       ∧ ∃ out,
           files (after (dump gs file model triples indent compact) w)
             !! name = Some out
           ∧ written h
               (after (dump gs (PyObj h) model triples indent compact) w)
             = written h w +:+ out).
Proof.
  intros Hname Hd. split.
  - intros text h model triples Hf Hr.
    rewrite (load_run file text), (load_run (PyObj h) text); [done| |].
    + unfold holds_text. cbn [as_filename]. by exists h.
    + unfold holds_text. by rewrite Hname.
  - intros gs h model triples indent compact Hw.
    assert (accepts file w) as Ha1 by (unfold accepts; by rewrite Hname).
    assert (accepts (PyObj h) w) as Ha2
      by (unfold accepts; cbn [as_filename]; by exists h).
    split; [by rewrite !dump_run|].
    exists (dump_text (successes (encodings model triples indent compact gs))).
    pose proof (dump_wrote gs file model triples indent compact w Ha1) as H1.
    pose proof (dump_wrote gs (PyObj h) model triples indent compact w Ha2)
      as H2.
    unfold wrote in H1, H2. rewrite Hname in H1. cbn [as_filename] in H2.
    split; [done|]. by destruct H2 as (h' & [= <-] & H2).
Qed.

(** C7.  After [load] and after [dump], however they end and whatever
    they were given, every file object that was there before the call is
    as open or closed as it was, and every file object the call created is
    closed.  Given a file name that [open] accepts, the call did create
    one. *)
Theorem owned_streams_closed_borrowed_kept w :
  (∀ source model triples,
     streams_released w (after (load source model triples) w))
  ∧ (∀ (gs : list Graph) file model triples indent compact,
       streams_released w
         (after (dump gs file model triples indent compact) w))
  ∧ (∀ source name text model triples,
       as_filename source = Some name →
       name ∉ denied w →
       files w !! name = Some text →
       ∃ st, streams (after (load source model triples) w)
               !! length (streams w) = Some st
             ∧ s_closed st = true)
  ∧ (∀ (gs : list Graph) file name model triples indent compact,
       as_filename file = Some name →
       name ∉ denied w →
       ∃ st, streams (after (dump gs file model triples indent compact) w)
               !! length (streams w) = Some st
             ∧ s_closed st = true).
Proof.
  split; [|split; [|split]].
  - intros. apply load_released.
  - intros. apply dump_released.
  - intros source name text model triples Hname Hd Hf. unfold after.
    rewrite (load_path_run _ name text) by done. cbn [snd streams].
    eexists. by rewrite list_lookup_middle.
  - intros gs file name model triples indent compact Hname Hd. unfold after.
    rewrite (dump_path_run _ _ name) by done. cbn [snd streams].
    eexists. by rewrite list_lookup_middle.
Qed.

(** C8.  When the grammar is lossless for a configuration at a graph [g]
    that [encode] accepts under it, [decode] of the encoded text under the
    same model and triples mode gives a graph with the same top and the
    same edges, in whatever store each of the two calls runs. *)
Theorem decode_encode_round_trip (g : Graph) (s : string)
    model triples indent compact w w' :
  lossless model triples indent compact g →
  outcome (encode g None model triples indent compact) w = Ok s →
  ∃ g', outcome (decode s model triples) w' = Ok g' ∧ graph_equiv g g'.
Proof.
  intros Hl He. apply encode_ok_iff in He.
  destruct (Hl s He) as (g' & Hd & Heq).
  exists g'. split; [|done].
  unfold outcome. rewrite decode_run. cbn [fst]. by rewrite Hd.
Qed.

(** C9.  Each of the six functions builds one codec object of its own,
    holding the model it is given, so its result does not depend on the
    calls made before it: after any two sequences of calls, from any two
    stores, the same call gives the same result ([load] when the source
    holds the same text in both stores, [dump] when both stores accept the
    sink, and then it writes the same text). *)
Theorem calls_do_not_share_codecs (before1 before2 : list call) wa wb :
  let w1 := perform_all before1 wa in
  let w2 := perform_all before2 wb in
  (∀ c, call_ready c w1 → codecs (perform c w1) = codecs w1 ++ [call_model c])
  ∧ (∀ s model triples,
       outcome (decode s model triples) w1
         = outcome (decode s model triples) w2)
  ∧ (∀ g top model triples indent compact,
       outcome (encode g top model triples indent compact) w1
         = outcome (encode g top model triples indent compact) w2)
  ∧ (∀ text model triples,
       outcome (loads text model triples) w1
         = outcome (loads text model triples) w2)
  ∧ (∀ (gs : list Graph) model triples indent compact,
       outcome (dumps gs model triples indent compact) w1
         = outcome (dumps gs model triples indent compact) w2)
  ∧ (∀ source text model triples,
       holds_text source text w1 →
       holds_text source text w2 →
       outcome (load source model triples) w1
         = outcome (load source model triples) w2)
  ∧ (∀ (gs : list Graph) file model triples indent compact,
       accepts file w1 →
       accepts file w2 →
       outcome (dump gs file model triples indent compact) w1
         = outcome (dump gs file model triples indent compact) w2
       ∧ ∃ out,
           wrote file out w1
             (after (dump gs file model triples indent compact) w1)
           ∧ wrote file out w2
               (after (dump gs file model triples indent compact) w2)).
Proof.
  intros w1 w2. repeat split.
  - intros. by apply perform_codecs.
  - intros. unfold outcome. by rewrite !decode_run.
  - intros. unfold outcome. by rewrite !encode_run.
  - intros. unfold outcome. by rewrite !loads_run.
  - intros. unfold outcome. by rewrite !dumps_run.
  - intros source text model triples H1 H2.
    by rewrite !(load_run source text).
  - by rewrite !dump_run.
  - eexists. split; by apply dump_wrote.
Qed.

(** C10.  Given a file name that [open] accepts, [dump] opens the file for
    writing, which empties or creates it, before it encodes any graph:
    after the call the file exists whatever happened; for no graph it is
    empty, whatever it held; when encoding the first graph raises it is
    empty; when encoding a later graph raises it holds the framed output of
    the graphs before that one.  No other file is touched. *)
Theorem dump_truncates_before_encoding (gs : list Graph) (file : pyobj)
    (name : string) model triples indent compact w :
  as_filename file = Some name →
  name ∉ denied w →
  let w' := after (dump gs file model triples indent compact) w in
  (∃ out, files w' !! name = Some out)
  ∧ (gs = [] → files w' !! name = Some "")
  ∧ (∀ g post e w0,
       gs = g :: post →
       outcome (encode g None model triples indent compact) w0 = Raise e →
       outcome (dump gs file model triples indent compact) w = Raise e
       ∧ files w' !! name = Some "")
  ∧ (∀ pre g post ss e w0,
       gs = pre ++ g :: post →
       Forall2 (λ g s,
         outcome (encode g None model triples indent compact) w0 = Ok s)
         pre ss →
       outcome (encode g None model triples indent compact) w0 = Raise e →
       outcome (dump gs file model triples indent compact) w = Raise e
       ∧ files w' !! name = Some (dump_spec ss))
  ∧ (∀ other, other ≠ name → files w' !! other = files w !! other).
Proof.
  intros Hname Hd w'.
  assert (accepts file w) as Hacc by (unfold accepts; by rewrite Hname).
  assert (files w' = <[name :=
            dump_text (successes (encodings model triples indent compact gs))]>
            (files w)) as Hfiles.
  { subst w'. unfold after. by rewrite (dump_path_run _ _ name). }
  assert (∀ pre g post ss e w0,
    gs = pre ++ g :: post →
    Forall2 (λ g s,
      outcome (encode g None model triples indent compact) w0 = Ok s)
      pre ss →
    outcome (encode g None model triples indent compact) w0 = Raise e →
    outcome (dump gs file model triples indent compact) w = Raise e
    ∧ files w' !! name = Some (dump_spec ss)) as Hfail.
  { intros pre g post ss e w0 -> Hss He.
    apply encode_raise_iff in He as (e' & -> & He').
    assert (encodings model triples indent compact (pre ++ g :: post)
            = (inr <$> ss) ++ inl e'
                :: encodings model triples indent compact post) as Henc.
    { rewrite encodings_app, encodings_cons, He'.
      by rewrite (encodings_all _ _ _ _ _ _ _ Hss). }
    split.
    - rewrite dump_run by done. by rewrite Henc, failure_until.
    - rewrite Hfiles, Henc, successes_until, dump_text_spec.
      apply lookup_insert_eq. }
  split; [|split; [|split; [|split]]].
  - rewrite Hfiles. eexists. apply lookup_insert_eq.
  - intros ->. rewrite Hfiles. apply lookup_insert_eq.
  - intros g post e w0 Hgs He.
    apply (Hfail [] g post [] e w0); [done|constructor|done].
  - exact Hfail.
  - intros other Hne. rewrite Hfiles. by apply lookup_insert_ne.
Qed.

End Properties.

(** * Further facts *)

(** ** Relations every step keeps *)

Section Preserved.
Context `{Engine}.
Variable R : world → world → Prop.
Hypothesis R_refl : ∀ w, R w w.
Hypothesis R_trans : ∀ w1 w2 w3, R w1 w2 → R w2 w3 → R w1 w3.

Lemma preserves_pure {A} (m : M A) : (∀ w, after m w = w) → preserves R m.
Proof using R_refl. intros Hm w. rewrite Hm. apply R_refl. Qed.

Lemma preserves_bind {A B} (m : M A) (f : A → M B) :
  preserves R m → (∀ a, preserves R (f a)) → preserves R (m ≫= f).
Proof using R_trans.
  intros Hm Hf w. specialize (Hm w).
  unfold after, mbind, M_bind in *.
  destruct (m w) as [[a|e] w']; cbn [snd] in *; [|done].
  eapply R_trans; [exact Hm|apply Hf].
Qed.

Lemma preserves_codec_encode c g top triples indent compact :
  preserves R (codec_encode c g top triples indent compact).
Proof using R_refl.
  apply preserves_pure. intros w. unfold after, codec_encode, mbind, M_bind.
  unfold codec_model. destruct (codecs w !! c) as [model|]; [|done].
  by rewrite from_engine_run.
Qed.

Lemma preserves_for {A} (gen : generator A) (body : A → M unit) :
  Forall (preserves R) gen →
  (∀ a, preserves R (body a)) →
  preserves R (for_ gen body).
Proof using R_refl R_trans.
  intros Hgen Hbody. induction Hgen as [|m gen Hm Hgen IH].
  - by apply preserves_pure.
  - cbn [for_]. apply preserves_bind; [done|]. intros a.
    apply preserves_bind; [apply Hbody|]. intros _. exact IH.
Qed.

Lemma preserves__dump fh (gs : list Graph) c triples indent compact :
  (∀ s, preserves R (write fh s)) →
  preserves R (_dump fh gs c triples indent compact).
Proof using R_refl R_trans.
  intros Hwrite.
  assert (∀ s, preserves R (print s fh)) as Hprint.
  { intros s. apply preserves_bind; [apply Hwrite|]. intros _. apply Hwrite. }
  intros w. unfold after, _dump.
  destruct gs as [|g gs].
  - cbn. apply R_refl.
  - rewrite fmap_cons. cbn [next].
    unfold mbind at 1, M_bind at 1, try_except_StopIteration.
    unfold mbind at 1, M_bind at 1.
    unfold mbind at 1, M_bind at 1.
    pose proof (preserves_codec_encode c g None triples indent compact w)
      as He.
    unfold after in He.
    destruct (codec_encode c g None triples indent compact w)
      as [[s|e] w1]; cbn [snd fst] in *.
    + unfold mret at 1, M_ret at 1. cbn [fst snd].
      unfold mbind at 1, M_bind at 1.
      pose proof (Hprint s w1) as Hp. unfold after in Hp.
      destruct (print s fh w1) as [[[]|e] w2]; cbn [snd] in *.
      * unfold mret at 1, M_ret at 1.
        eapply R_trans; [exact He|].
        eapply R_trans; [exact Hp|].
        apply (preserves_for _ (λ s0, print_blank fh;; print s0 fh)).
        -- apply Forall_fmap, Forall_forall. intros g0 _.
           apply preserves_codec_encode.
        -- intros s0. apply preserves_bind; [apply Hwrite|].
           intros _. apply Hprint.
      * destruct e; cbn [snd]; by eapply R_trans.
    + destruct e; cbn [snd]; done.
Qed.

End Preserved.

Section MoreFacts.
Context `{Engine}.

(** ** Text added to one file object *)

Lemma appended_refl h w : appended h w w.
Proof.
  split; [done|]. split; [done|]. exists "".
  destruct (streams w !! h) as [st|]; [|done].
  cbn. by rewrite put_text_nil.
Qed.

Lemma appended_trans h w1 w2 w3 :
  appended h w1 w2 → appended h w2 w3 → appended h w1 w3.
Proof.
  intros (Hf1 & Ho1 & out1 & Hh1) (Hf2 & Ho2 & out2 & Hh2).
  split; [by rewrite Hf2|]. split.
  - intros h' Hne. by rewrite Ho2, Ho1.
  - exists (out1 +:+ out2). rewrite Hh2, Hh1.
    destruct (streams w1 !! h) as [st|]; [|done].
    cbn. by rewrite put_text_put_text.
Qed.

Lemma appended_codecs h f w : appended h w (with_codecs f w).
Proof. apply (appended_refl h w). Qed.

Lemma appended_write h s : preserves (appended h) (write (PyObj h) s).
Proof.
  intros w. unfold after, write.
  destruct (streams w !! h) as [st|] eqn:Hst; [|apply appended_refl].
  destruct (s_write st); [|apply appended_refl].
  destruct (s_closed st); [apply appended_refl|].
  cbn [snd]. split; [done|]. split.
  - intros h' Hne. cbn [streams with_streams].
    by rewrite list_lookup_alter_ne.
  - exists s. cbn [streams with_streams].
    by rewrite list_lookup_alter_eq.
Qed.

(** ** Steps that change nothing *)

Lemma iterdecode_list_pure c lines triples w :
  after (codec_iterdecode c lines triples ≫= list_) w = w.
Proof.
  unfold after, codec_iterdecode, mbind, M_bind, codec_model.
  destruct (codecs w !! c) as [model|]; [|done].
  assert (∀ r w', read_lines lines w = (r, w') → w' = w) as Hr.
  { unfold read_lines. intros r w'.
    destruct lines as [| | | |h]; try by intros [= _ <-].
    destruct (streams w !! h) as [st|]; [|by intros [= _ <-]].
    destruct (s_closed st); by intros [= _ <-]. }
  destruct (read_lines lines w) as [[text|e] w'];
    rewrite (Hr _ _ eq_refl); [|done].
  unfold mret, M_ret. by rewrite list_from_engine.
Qed.

Lemma load_other_after source model triples w :
  as_filename source = None →
  after (load source model triples) w = with_codecs (λ l, l ++ [model]) w.
Proof.
  intros Hname. unfold after, load.
  rewrite (bind_ok _ _ _ _ _ (PENMANCodec_run model w)), Hname.
  unfold mbind at 1, M_bind at 1, assert_, hasattr_read.
  unfold mbind at 1, M_bind at 1.
  destruct (has_attribute s_read source _); [|done].
  unfold mret at 1, M_ret at 1.
  apply (iterdecode_list_pure _ source).
Qed.

(** ** Names [open] refuses and files that are not there *)

Lemma load_denied_run source name model triples w :
  as_filename source = Some name →
  name ∈ denied w →
  load source model triples w =
  (Raise (OSError PermissionError), with_codecs (λ l, l ++ [model]) w).
Proof.
  intros Hname Hd. unfold load.
  rewrite (bind_ok _ _ _ _ _ (PENMANCodec_run model w)), Hname.
  unfold with_open, mbind, M_bind, open_. cbn [denied with_codecs].
  by destruct (decide (name ∈ denied w)).
Qed.

Lemma load_missing_run source name model triples w :
  as_filename source = Some name →
  name ∉ denied w →
  files w !! name = None →
  load source model triples w =
  (Raise (OSError FileNotFoundError), with_codecs (λ l, l ++ [model]) w).
Proof.
  intros Hname Hd Hf. unfold load.
  rewrite (bind_ok _ _ _ _ _ (PENMANCodec_run model w)), Hname.
  unfold with_open, mbind, M_bind, open_. cbn [denied files with_codecs].
  destruct (decide (name ∈ denied w)); [done|]. by rewrite Hf.
Qed.

Lemma dump_denied_run (gs : list Graph) file name model triples indent
    compact w :
  as_filename file = Some name →
  name ∈ denied w →
  dump gs file model triples indent compact w =
  (Raise (OSError PermissionError), with_codecs (λ l, l ++ [model]) w).
Proof.
  intros Hname Hd. unfold dump.
  rewrite (bind_ok _ _ _ _ _ (PENMANCodec_run model w)), Hname.
  unfold with_open, mbind, M_bind, open_. cbn [denied with_codecs].
  by destruct (decide (name ∈ denied w)).
Qed.

(** ** Lists put together *)

Lemma written_codecs h f w : written h (with_codecs f w) = written h w.
Proof. reflexivity. Qed.

Lemma writable_codecs h f w : writable h w → writable h (with_codecs f w).
Proof. done. Qed.

Lemma dump_spec_rest_app (ss1 ss2 : list string) :
  dump_spec_rest (ss1 ++ ss2) = dump_spec_rest ss1 +:+ dump_spec_rest ss2.
Proof.
  induction ss1 as [|s ss1 IH]; [done|].
  rewrite <- app_comm_cons. cbn [dump_spec_rest].
  by rewrite IH, !str_app_assoc.
Qed.

Lemma dump_spec_app (ss1 ss2 : list string) :
  ss1 ≠ [] → ss2 ≠ [] →
  dump_spec (ss1 ++ ss2) = dump_spec ss1 +:+ nl +:+ dump_spec ss2.
Proof.
  destruct ss1 as [|s1 r1]; [done|]. destruct ss2 as [|s2 r2]; [done|].
  intros _ _. rewrite <- app_comm_cons. unfold dump_spec.
  rewrite dump_spec_rest_app. cbn [dump_spec_rest].
  by rewrite !str_app_assoc.
Qed.

Lemma join_app (sep : string) (ss1 ss2 : list string) :
  ss1 ≠ [] → ss2 ≠ [] →
  join sep (ss1 ++ ss2) = join sep ss1 +:+ sep +:+ join sep ss2.
Proof.
  destruct ss2 as [|s2 r2]; [done|]. intros Hne _.
  induction ss1 as [|s1 r1 IH]; [done|].
  destruct r1 as [|s1' r1].
  - by rewrite <- app_comm_cons, app_nil_l, join_cons_cons.
  - rewrite <- !app_comm_cons, join_cons_cons.
    rewrite !app_comm_cons, IH by done.
    by rewrite join_cons_cons, !str_app_assoc.
Qed.

End MoreFacts.

(** * Further properties *)

Section Further.
Context `{Engine}.


(** X2.  When encoding one of the graphs raises, [dumps] raises that
    exception and returns no text at all, however many graphs before it
    encoded; it touches no file and no file object. *)
Theorem dumps_raises_first_failure (pre post : list Graph) (g : Graph)
    (ss : list string) (e : exn) model triples indent compact w0 w :
  Forall2 (λ g s,
    outcome (encode g None model triples indent compact) w0 = Ok s) pre ss →
  outcome (encode g None model triples indent compact) w0 = Raise e →
  outcome (dumps (pre ++ g :: post) model triples indent compact) w = Raise e
  ∧ files (after (dumps (pre ++ g :: post) model triples indent compact) w)
      = files w
  ∧ streams (after (dumps (pre ++ g :: post) model triples indent compact) w)
      = streams w.
Proof.
  intros Hss He. apply encode_raise_iff in He as (e' & -> & He').
  unfold outcome, after. rewrite dumps_run. cbn [fst snd].
  split; [|done].
  rewrite encodings_app, encodings_cons, He'.
  rewrite (encodings_all _ _ _ _ _ _ _ Hss).
  by rewrite failure_until.
Qed.

(** X3.  The five functions that read ([decode], [encode], [loads],
    [dumps] and [load]) never write: whatever they are given and however
    they end, no file changes, and every file object that was there keeps
    the text written to it and stays as open or closed as it was. *)
Theorem reading_never_writes w :
  (∀ s model triples, untouched w (after (decode s model triples) w))
  ∧ (∀ g top model triples indent compact,
       untouched w (after (encode g top model triples indent compact) w))
  ∧ (∀ text model triples, untouched w (after (loads text model triples) w))
  ∧ (∀ (gs : list Graph) model triples indent compact,
       untouched w (after (dumps gs model triples indent compact) w))
  ∧ (∀ source model triples,
       untouched w (after (load source model triples) w)).
Proof.
  assert (∀ f, untouched w (with_codecs f w)) as Hc.
  { intros f. split; [done|]. intros h st Hst. by exists st. }
  split; [|split; [|split; [|split]]].
  - intros. unfold after. rewrite decode_run. apply Hc.
  - intros. unfold after. rewrite encode_run. apply Hc.
  - intros. unfold after. rewrite loads_run. apply Hc.
  - intros. unfold after. rewrite dumps_run. apply Hc.
  - intros source model triples.
    destruct (as_filename source) as [name|] eqn:Hname.
    + destruct (decide (name ∈ denied w)) as [Hd|Hd].
      { unfold after. rewrite (load_denied_run _ name) by done. apply Hc. }
      destruct (files w !! name) as [text|] eqn:Hf.
      * unfold after. rewrite (load_path_run _ name text) by done.
        split; [done|]. intros h st Hst. exists st.
        split; [|done]. cbn [snd streams]. by apply lookup_app_l_Some.
      * unfold after. rewrite (load_missing_run _ name) by done. apply Hc.
    + rewrite load_other_after by done. apply Hc.
Qed.

(** X4.  [dump] to a file object, whatever its state and however the call
    ends, changes no file and no other file object, and changes that file
    object only by adding text after what was already written to it. *)
Theorem dump_only_appends (gs : list Graph) (h : handle)
    model triples indent compact w :
  appended h w (after (dump gs (PyObj h) model triples indent compact) w).
Proof.
  unfold after, dump.
  rewrite (bind_ok _ _ _ _ _ (PENMANCodec_run model w)).
  cbn [as_filename]. set (w0 := with_codecs _ w).
  apply (appended_trans h w w0); [apply appended_codecs|].
  apply (preserves_bind (appended h) (appended_trans h)
           (assert_ (hasattr_write (PyObj h)))).
  - apply (preserves_pure (appended h) (appended_refl h)).
    intros w1. unfold after, assert_, hasattr_write, mbind, M_bind.
    by destruct (has_attribute s_write (PyObj h) w1).
  - intros _.
    apply (preserves__dump (appended h) (appended_refl h) (appended_trans h)).
    apply appended_write.
Qed.

(** X5.  [dump] to a file object that has [write] but is closed: for no
    graph it returns normally, because nothing is written; for a first
    graph that encodes it raises [ValueError] at the first write; for a
    first graph that does not encode it raises the codec's exception,
    because the graph is encoded before anything is written.  In every
    case no file object changes. *)
Theorem dump_to_closed_file_object (h : handle) (st : stream)
    model triples indent compact w :
  streams w !! h = Some st →
  s_write st = true →
  s_closed st = true →
  outcome (dump [] (PyObj h) model triples indent compact) w = Ok ()
  ∧ (∀ g rest s w0,
       outcome (encode g None model triples indent compact) w0 = Ok s →
       outcome (dump (g :: rest) (PyObj h) model triples indent compact) w
         = Raise ValueError)
  ∧ (∀ g rest e w0,
       outcome (encode g None model triples indent compact) w0 = Raise e →
       outcome (dump (g :: rest) (PyObj h) model triples indent compact) w
         = Raise e)
  ∧ (∀ gs : list Graph,
       streams (after (dump gs (PyObj h) model triples indent compact) w)
         = streams w).
Proof.
  intros Hst Hw Hc.
  set (w0 := with_codecs (λ l, l ++ [model]) w).
  assert (∀ gs : list Graph,
    dump gs (PyObj h) model triples indent compact w
    = _dump (PyObj h) gs (length (codecs w)) triples indent compact w0)
    as Hdump.
  { intros gs. unfold dump.
    rewrite (bind_ok _ _ _ _ _ (PENMANCodec_run model w)).
    cbn [as_filename].
    unfold mbind at 1, M_bind at 1, assert_, hasattr_write.
    unfold mbind at 1, M_bind at 1. cbn [has_attribute streams with_codecs].
    by rewrite Hst, Hw. }
  assert (∀ s w1, streams w1 !! h = Some st →
            write (PyObj h) s w1 = (Raise ValueError, w1)) as Hwrite.
  { intros s w1 Hst1. unfold write. by rewrite Hst1, Hw, Hc. }
  assert (codecs w0 !! length (codecs w) = Some model) as Hcodec
    by apply codecs_new.
  split; [|split; [|split]].
  - unfold outcome. by rewrite Hdump.
  - intros g rest s w1 He. apply encode_ok_iff in He.
    unfold outcome. rewrite Hdump. unfold _dump.
    rewrite fmap_cons. cbn [next].
    unfold mbind at 1, M_bind at 1, try_except_StopIteration.
    unfold mbind at 1, M_bind at 1.
    unfold mbind at 1, M_bind at 1.
    rewrite (codec_encode_run _ _ _ _ _ _ _ _ Hcodec), He.
    unfold mret at 1, M_ret at 1. cbn [fst snd].
    unfold print, mbind, M_bind. by rewrite Hwrite.
  - intros g rest e w1 He. apply encode_raise_iff in He as (e' & -> & He').
    unfold outcome. rewrite Hdump. unfold _dump.
    rewrite fmap_cons. cbn [next].
    unfold mbind at 1, M_bind at 1, try_except_StopIteration.
    unfold mbind at 1, M_bind at 1.
    unfold mbind at 1, M_bind at 1.
    by rewrite (codec_encode_run _ _ _ _ _ _ _ _ Hcodec), He'.
  - intros gs. unfold after. rewrite Hdump.
    pose (R := λ w1 w2 : world,
                 streams w1 !! h = Some st → streams w2 = streams w1).
    assert (preserves R
              (_dump (PyObj h) gs (length (codecs w)) triples indent compact))
      as Hkeep.
    { apply preserves__dump.
      - by intros w1 _.
      - intros w1 w2 w3 H12 H23 H1. rewrite H23, H12; [done..|].
        by rewrite H12.
      - intros s w1 Hst1. unfold after. by rewrite Hwrite. }
    by apply (Hkeep w0).
Qed.

(** X6.  Two [dump]s in a row to the same open file object add the framed
    output of the first list and then that of the second, with no blank
    line between them; one [dump] of the two lists put together adds the
    same text with one more line break at the joint. *)
Theorem two_dumps_lack_the_blank_line (gs1 gs2 : list Graph)
    (ss1 ss2 : list string) (h : handle) model triples indent compact w0 w :
  Forall2 (λ g s,
    outcome (encode g None model triples indent compact) w0 = Ok s) gs1 ss1 →
  Forall2 (λ g s,
    outcome (encode g None model triples indent compact) w0 = Ok s) gs2 ss2 →
  gs1 ≠ [] →
  gs2 ≠ [] →
  writable h w →
  written h
    (after (dump gs2 (PyObj h) model triples indent compact)
       (after (dump gs1 (PyObj h) model triples indent compact) w))
    = written h w +:+ dump_spec ss1 +:+ dump_spec ss2
  ∧ written h
      (after (dump (gs1 ++ gs2) (PyObj h) model triples indent compact) w)
    = written h w +:+ dump_spec ss1 +:+ nl +:+ dump_spec ss2.
Proof.
  intros Hss1 Hss2 Hne1 Hne2 Hw.
  pose proof (encodings_all _ _ _ _ _ _ _ Hss1) as He1.
  pose proof (encodings_all _ _ _ _ _ _ _ Hss2) as He2.
  split.
  - unfold after. rewrite (dump_stream_run gs1) by done. cbn [snd].
    rewrite dump_stream_run by by apply writable_emit, writable_codecs.
    cbn [snd].
    rewrite written_emit
      by by apply writable_codecs, writable_emit, writable_codecs.
    rewrite written_codecs, written_emit by by apply writable_codecs.
    rewrite written_codecs, He1, He2, !successes_all, !dump_text_spec.
    by rewrite str_app_assoc.
  - unfold after. rewrite dump_stream_run by done. cbn [snd].
    rewrite written_emit by by apply writable_codecs.
    rewrite written_codecs, encodings_app, He1, He2, <- fmap_app.
    rewrite successes_all, dump_text_spec, dump_spec_app; [done| |].
    + intros ->. inversion Hss1; by subst.
    + intros ->. inversion Hss2; by subst.
Qed.

(** X7.  [dump] to a file name replaces: after two [dump]s to the same
    name the file holds what the second one alone would have left, whatever
    the first one wrote and however each of them ended. *)
Theorem dump_to_a_name_replaces (gs1 gs2 : list Graph) (file : pyobj)
    (name : string) model1 triples1 indent1 compact1
    model2 triples2 indent2 compact2 w :
  as_filename file = Some name →
  name ∉ denied w →
  files
    (after (dump gs2 file model2 triples2 indent2 compact2)
       (after (dump gs1 file model1 triples1 indent1 compact1) w)) !! name
  = files (after (dump gs2 file model2 triples2 indent2 compact2) w) !! name.
Proof.
  intros Hname Hd. unfold after.
  rewrite (dump_path_run gs1 _ name) by done. cbn [snd].
  rewrite (dump_path_run gs2 _ name) by done.
  rewrite (dump_path_run gs2 _ name) by done.
  cbn [snd files]. by rewrite !lookup_insert_eq.
Qed.


(** X9.  A [dump] that fails at some graph leaves in its sink what a
    [dump] of the graphs before that one, which succeeds, leaves there. *)
Theorem failed_dump_leaves_dump_of_prefix (pre post : list Graph)
    (g : Graph) (ss : list string) (e : exn) file
    model triples indent compact w0 w :
  Forall2 (λ g s,
    outcome (encode g None model triples indent compact) w0 = Ok s) pre ss →
  outcome (encode g None model triples indent compact) w0 = Raise e →
  accepts file w →
  outcome (dump pre file model triples indent compact) w = Ok ()
  ∧ ∃ out,
      wrote file out w
        (after (dump (pre ++ g :: post) file model triples indent compact) w)
      ∧ wrote file out w
          (after (dump pre file model triples indent compact) w).
Proof.
  intros Hss He Hacc. apply encode_raise_iff in He as (e' & -> & He').
  pose proof (encodings_all _ _ _ _ _ _ _ Hss) as Hpre.
  split.
  - rewrite dump_run by done. by rewrite Hpre, failure_all.
  - exists (dump_text ss). split.
    + pose proof (dump_wrote (pre ++ g :: post) file model triples indent
                    compact w Hacc) as Hw.
      by rewrite encodings_app, encodings_cons, He', Hpre, successes_until
        in Hw.
    + pose proof (dump_wrote pre file model triples indent compact w Hacc)
        as Hw.
      by rewrite Hpre, successes_all in Hw.
Qed.

(** X10.  The file is opened before anything else is done with it: [dump]
    and [load] given a name [open] refuses raise [PermissionError], and
    [load] given the name of a file that is not there raises
    [FileNotFoundError], whatever the graphs or the text would have been;
    no file is created or changed and no file object is left behind. *)
Theorem open_failure_comes_first (v : pyobj) (name : string) w :
  as_filename v = Some name →
  (name ∈ denied w →
     ∀ (gs : list Graph) model triples indent compact,
       outcome (dump gs v model triples indent compact) w
         = Raise (OSError PermissionError)
       ∧ files (after (dump gs v model triples indent compact) w) = files w
       ∧ streams (after (dump gs v model triples indent compact) w)
           = streams w)
  ∧ (name ∈ denied w →
       ∀ model triples,
         outcome (load v model triples) w = Raise (OSError PermissionError)
         ∧ streams (after (load v model triples) w) = streams w)
  ∧ (name ∉ denied w →
       files w !! name = None →
       ∀ model triples,
         outcome (load v model triples) w = Raise (OSError FileNotFoundError)
         ∧ files (after (load v model triples) w) = files w
         ∧ streams (after (load v model triples) w) = streams w).
Proof.
  intros Hname. split; [|split].
  - intros Hd gs model triples indent compact. unfold outcome, after.
    by rewrite (dump_denied_run _ _ name).
  - intros Hd model triples. unfold outcome, after.
    by rewrite (load_denied_run _ name).
  - intros Hd Hf model triples. unfold outcome, after.
    by rewrite (load_missing_run _ name).
Qed.

(** X11.  [dumps] of two lists put together, each with at least one graph
    and all graphs encoding, is [dumps] of the first, two line breaks, and
    [dumps] of the second. *)
Theorem dumps_of_two_lists (gs1 gs2 : list Graph) (ss1 ss2 : list string)
    model triples indent compact w0 w :
  Forall2 (λ g s,
    outcome (encode g None model triples indent compact) w0 = Ok s) gs1 ss1 →
  Forall2 (λ g s,
    outcome (encode g None model triples indent compact) w0 = Ok s) gs2 ss2 →
  gs1 ≠ [] →
  gs2 ≠ [] →
  ∃ text1 text2,
    outcome (dumps gs1 model triples indent compact) w = Ok text1
    ∧ outcome (dumps gs2 model triples indent compact) w = Ok text2
    ∧ outcome (dumps (gs1 ++ gs2) model triples indent compact) w
      = Ok (text1 +:+ nl +:+ nl +:+ text2).
Proof.
  intros Hss1 Hss2 Hne1 Hne2.
  pose proof (encodings_all _ _ _ _ _ _ _ Hss1) as He1.
  pose proof (encodings_all _ _ _ _ _ _ _ Hss2) as He2.
  exists (join (nl +:+ nl) ss1), (join (nl +:+ nl) ss2).
  unfold outcome. rewrite !dumps_run. cbn [fst].
  rewrite encodings_app, He1, He2, <- fmap_app.
  rewrite !failure_all, !successes_all. cbn [ends_with].
  split; [done|]. split; [done|].
  rewrite join_app, str_app_assoc; [done| |].
  - intros ->. inversion Hss1; by subst.
  - intros ->. inversion Hss2; by subst.
Qed.

End Further.


(** * The properties on the toy engine *)

#[local] Existing Instance toy_engine.

Lemma toy_out_not_denied : "out.txt" ∉ denied toy_world.
Proof. by vm_compute. Qed.

Lemma toy_in_not_denied : "in.txt" ∉ denied toy_world.
Proof. by vm_compute. Qed.

Lemma toy_stream_writable : writable 0 toy_world.
Proof. by eexists. Qed.

Lemma toy_stream_readable : readable 0 "ab" toy_world.
Proof. by eexists. Qed.

Lemma toy_stream_accepted : accepts (PyObj 0) toy_world.
Proof. exists 0. split; [reflexivity|apply toy_stream_writable]. Qed.

Lemma toy_encodes_ab :
  Forall2 (λ g s,
    outcome (encode g None None false default_indent false) toy_world = Ok s)
    ["a"; "b"] ["a"; "b"].
Proof. by repeat constructor. Qed.

Lemma dumps_joins_with_blank_line_witness :
  outcome (dumps ["a"; "b"] None false default_indent false) toy_world
  = Ok ("a" +:+ nl +:+ nl +:+ "b").
Proof.
  exact (proj1 (dumps_joins_with_blank_line ["a"; "b"] ["a"; "b"]
                  None false default_indent false toy_world toy_world
                  toy_encodes_ab)).
Defined.

Lemma dump_frames_every_graph_witness :
  wrote (PyObj 0) ("a" +:+ nl +:+ nl +:+ "b" +:+ nl) toy_world
    (after (dump ["a"; "b"] (PyObj 0) None false default_indent false)
       toy_world).
Proof.
  exact (proj1 (proj2 (dump_frames_every_graph ["a"; "b"] ["a"; "b"]
                         (PyObj 0) None false default_indent false
                         toy_world toy_world
                         toy_encodes_ab toy_stream_accepted))).
Defined.

Lemma dump_keeps_what_was_written_witness :
  outcome (dump ["a"; "b"; ""; "c"] (PyObj 0) None false default_indent false)
    toy_world
  = Raise (CodecError "empty")
  ∧ wrote (PyObj 0) ("a" +:+ nl +:+ nl +:+ "b" +:+ nl) toy_world
      (after
         (dump ["a"; "b"; ""; "c"] (PyObj 0) None false default_indent false)
         toy_world).
Proof.
  pose proof (dump_keeps_what_was_written ["a"; "b"] ["c"] "" ["a"; "b"]
                (CodecError "empty") (PyObj 0) None false default_indent false
                toy_world toy_world
                toy_encodes_ab eq_refl toy_stream_accepted) as W.
  exact (conj (proj1 W) (proj1 (proj2 W))).
Defined.

(** C3, as stated: [load] of an integer does not fail with an exception
    called [UnsupportedSourceKind], and [dump] to an integer does not fail
    with one called [UnsupportedSinkKind]. *)
Lemma load_int_is_not_UnsupportedSourceKind :
  ¬ (∃ e, outcome (load (PyInt 0) None false) toy_world = Raise e
          ∧ exn_name e = "UnsupportedSourceKind")
  ∧ ¬ (∃ e, outcome (dump ["a"] (PyInt 0) None false default_indent false)
              toy_world = Raise e
            ∧ exn_name e = "UnsupportedSinkKind").
Proof.
  split; intros (e & He & Hname); vm_compute in He; injection He as <-;
    vm_compute in Hname; discriminate Hname.
Qed.

Lemma unsupported_designator_raises_AssertionError_witness :
  outcome (load (PyInt 0) None false) toy_world = Raise AssertionError
  ∧ outcome (dump ["a"] (PyInt 0) None false default_indent false) toy_world
    = Raise AssertionError.
Proof.
  pose proof (unsupported_designator_raises_AssertionError (PyInt 0)
                toy_world eq_refl) as [Wl Wd].
  exact (conj (Wl eq_refl None false)
              (proj1 (Wd eq_refl ["a"] None false default_indent false))).
Defined.

Lemma toy_holds_in : holds_text (PyStr "in.txt") "ab" toy_world.
Proof. split; [apply toy_in_not_denied|reflexivity]. Qed.


Lemma load_is_all_or_nothing_witness :
  outcome (load (PyStr "in.txt") None false) toy_world = Ok ["a"; "b"]
  ∧ outcome (loads "ab" None false) toy_world = Ok ["a"; "b"].
Proof.
  exact (proj2 (load_is_all_or_nothing (PyStr "in.txt") "ab" None false
                  ["a"; "b"] toy_world toy_holds_in) eq_refl).
Defined.

Lemma path_and_stream_agree_witness :
  outcome (load (PyStr "in.txt") None false) toy_world
  = outcome (load (PyObj 0) None false) toy_world.
Proof.
  exact (proj1 (path_and_stream_agree (PyStr "in.txt") "in.txt" toy_world
                  eq_refl toy_in_not_denied)
           "ab" 0 None false eq_refl toy_stream_readable).
Defined.

Lemma owned_streams_closed_borrowed_kept_witness :
  streams_released toy_world
    (after (dump ["a"; ""] (PyStr "out.txt") None false default_indent false)
       toy_world)
  ∧ ∃ st,
      streams
        (after (dump ["a"; ""] (PyStr "out.txt") None false default_indent false)
           toy_world) !! 1 = Some st
      ∧ s_closed st = true.
Proof.
  pose proof (owned_streams_closed_borrowed_kept toy_world) as (_ & Wd & _ & We).
  exact (conj (Wd ["a"; ""] (PyStr "out.txt") None false default_indent false)
              (We ["a"; ""] (PyStr "out.txt") "out.txt" None false
                  default_indent false eq_refl toy_out_not_denied)).
Defined.

Lemma toy_lossless : lossless None false default_indent false "a".
Proof.
  intros s [= <-]. exists "a". split; [reflexivity|].
  split; [reflexivity|constructor].
Qed.

Lemma decode_encode_round_trip_witness :
  ∃ g', outcome (decode "a" None false) toy_world = Ok g' ∧ graph_equiv "a" g'.
Proof.
  exact (decode_encode_round_trip "a" "a" None false default_indent false
           toy_world toy_world toy_lossless eq_refl).
Defined.

Lemma calls_do_not_share_codecs_witness :
  outcome (decode "a" (Some true) false)
    (perform_all [CallDecode "b" (Some false) true] toy_world)
  = outcome (decode "a" (Some true) false)
      (perform_all [CallDumps ["c"] None true (IndentInt 2) true;
                    CallLoads "ab" (Some false) false] toy_world).
Proof.
  exact (proj1 (proj2 (calls_do_not_share_codecs
                         [CallDecode "b" (Some false) true]
                         [CallDumps ["c"] None true (IndentInt 2) true;
                          CallLoads "ab" (Some false) false]
                         toy_world toy_world))
           "a" (Some true) false).
Defined.

Lemma dump_truncates_before_encoding_witness :
  files (after (dump [] (PyStr "in.txt") None false default_indent false)
           toy_world) !! "in.txt" = Some ""
  ∧ files (after (dump [""; "a"] (PyPath "in.txt") None false default_indent
                    false) toy_world) !! "in.txt" = Some "".
Proof.
  pose proof (dump_truncates_before_encoding [] (PyStr "in.txt") "in.txt"
                None false default_indent false toy_world
                eq_refl toy_in_not_denied) as (_ & W1 & _).
  pose proof (dump_truncates_before_encoding [""; "a"] (PyPath "in.txt")
                "in.txt" None false default_indent false toy_world
                eq_refl toy_in_not_denied) as (_ & _ & W2 & _).
  exact (conj (W1 eq_refl)
              (proj2 (W2 "" ["a"] (CodecError "empty") toy_world
                         eq_refl eq_refl))).
Defined.

(** * The further properties on the toy engine *)

Lemma toy_encodes_a :
  Forall2 (λ g s,
    outcome (encode g None None false default_indent false) toy_world = Ok s)
    ["a"] ["a"].
Proof. by repeat constructor. Qed.

Lemma toy_encodes_b :
  Forall2 (λ g s,
    outcome (encode g None None false default_indent false) toy_world = Ok s)
    ["b"] ["b"].
Proof. by repeat constructor. Qed.

Lemma toy_a_nonempty : ["a"] ≠ ([] : list string).
Proof. done. Qed.

Lemma toy_b_nonempty : ["b"] ≠ ([] : list string).
Proof. done. Qed.

Lemma toy_locked_denied : "locked" ∈ denied toy_world.
Proof. by vm_compute. Qed.


Lemma dumps_raises_first_failure_witness :
  outcome (dumps ["a"; ""; "b"] None false default_indent false) toy_world
  = Raise (CodecError "empty").
Proof.
  exact (proj1 (dumps_raises_first_failure ["a"] ["b"] "" ["a"]
                  (CodecError "empty") None false default_indent false
                  toy_world toy_world toy_encodes_a eq_refl)).
Defined.

Lemma dump_to_closed_file_object_witness :
  outcome (dump [] (PyObj 0) None false default_indent false) toy_closed_world
  = Ok ()
  ∧ outcome (dump ["a"] (PyObj 0) None false default_indent false)
      toy_closed_world
    = Raise ValueError.
Proof.
  pose proof (dump_to_closed_file_object 0 _ None false default_indent false
                toy_closed_world eq_refl eq_refl eq_refl) as (W1 & W2 & _).
  exact (conj W1 (W2 "a" [] "a" toy_world eq_refl)).
Defined.

Lemma two_dumps_lack_the_blank_line_witness :
  written 0
    (after (dump ["b"] (PyObj 0) None false default_indent false)
       (after (dump ["a"] (PyObj 0) None false default_indent false)
          toy_world))
  = "a" +:+ nl +:+ "b" +:+ nl
  ∧ written 0
      (after (dump ["a"; "b"] (PyObj 0) None false default_indent false)
         toy_world)
    = "a" +:+ nl +:+ nl +:+ "b" +:+ nl.
Proof.
  exact (two_dumps_lack_the_blank_line ["a"] ["b"] ["a"] ["b"] 0
           None false default_indent false toy_world toy_world
           toy_encodes_a toy_encodes_b
           toy_a_nonempty
           toy_b_nonempty
           toy_stream_writable).
Defined.

Lemma dump_to_a_name_replaces_witness :
  files
    (after (dump ["b"] (PyStr "out.txt") None false default_indent false)
       (after (dump ["a"; "c"] (PyStr "out.txt") None true (IndentInt 2) true)
          toy_world)) !! "out.txt"
  = files
      (after (dump ["b"] (PyStr "out.txt") None false default_indent false)
         toy_world) !! "out.txt".
Proof.
  exact (dump_to_a_name_replaces ["a"; "c"] ["b"] (PyStr "out.txt") "out.txt"
           None true (IndentInt 2) true None false default_indent false
           toy_world eq_refl toy_out_not_denied).
Defined.


Lemma failed_dump_leaves_dump_of_prefix_witness :
  ∃ out,
    wrote (PyObj 0) out toy_world
      (after
         (dump ["a"; "b"; ""; "c"] (PyObj 0) None false default_indent false)
         toy_world)
    ∧ wrote (PyObj 0) out toy_world
        (after (dump ["a"; "b"] (PyObj 0) None false default_indent false)
           toy_world).
Proof.
  exact (proj2 (failed_dump_leaves_dump_of_prefix ["a"; "b"] ["c"] ""
                  ["a"; "b"] (CodecError "empty") (PyObj 0)
                  None false default_indent false toy_world toy_world
                  toy_encodes_ab eq_refl toy_stream_accepted)).
Defined.

Lemma open_failure_comes_first_witness :
  outcome (dump ["a"] (PyStr "locked") None false default_indent false)
    toy_world
  = Raise (OSError PermissionError).
Proof.
  exact (proj1 (proj1 (open_failure_comes_first (PyStr "locked") "locked"
                         toy_world eq_refl)
                  toy_locked_denied ["a"] None false default_indent false)).
Defined.

Lemma dumps_of_two_lists_witness :
  ∃ text1 text2,
    outcome (dumps ["a"] None false default_indent false) toy_world = Ok text1
    ∧ outcome (dumps ["b"] None false default_indent false) toy_world
      = Ok text2
    ∧ outcome (dumps (["a"] ++ ["b"]) None false default_indent false)
        toy_world
      = Ok (text1 +:+ nl +:+ nl +:+ text2).
Proof.
  exact (dumps_of_two_lists ["a"] ["b"] ["a"] ["b"]
           None false default_indent false toy_world toy_world
           toy_encodes_a toy_encodes_b
           toy_a_nonempty
           toy_b_nonempty).
Defined.
